(** * NativeCameraProcessor: a shallow embedding and its verified properties

    The development follows [src/native/cpp/NativeCameraProcessor.cpp].

    - The member variables of the C++ class become the record [Processor];
      every member function becomes a computation in the monad [M], which
      threads the processor, collects what the function prints on
      [cout]/[cerr] (and the calibration calls it makes) as a list of
      [Event]s, and fails ([None]) exactly where the C++ code indexes a
      [std::vector] out of range, which is undefined behaviour.
    - OpenCV is not part of the repository: its entry points are the
      fields of the interface [OpenCV], total functions the code is
      verified against, whatever they compute.  OpenCV answers a call
      that breaks its documented contract with an exception, which the
      model does not have: the calls in question ([remap] with an empty
      map, [calibrateCamera] with different numbers of object and image
      views) are recorded in the log and singled out by
      [violates_contract], and of a run of the source only what precedes
      the first such call is real.
    - [double] and [float] values are idealised as exact rationals ([Qc]):
      no rounding, no infinities, no NaN.  The threshold [0.016667] is the
      rational its double is, and what is stated about it keeps a margin
      on either side.  The one place where the code can produce a NaN
      from finite data (0/0 in [validateTriangulation]) is modelled
      explicitly; elsewhere a division by zero, which no run reaches,
      yields 0. *)

From Stdlib Require Import ZArith QArith Qcanon Lia.
From stdpp Require Import base tactics option numbers list gmap sorting.

Local Open Scope Z_scope.

(** ** Data *)

Record Point2f : Type := mkPoint2f { p2x : Qc; p2y : Qc }.
Record Point3f : Type := mkPoint3f { p3x : Qc; p3y : Qc; p3z : Qc }.
Record Size : Type := mkSize { width : Z; height : Z }.

(** [cv::Scalar]: four doubles. *)
Record Scalar : Type := mkScalar { sc0 : Qc; sc1 : Qc; sc2 : Qc; sc3 : Qc }.

(** [cv::Mat]: a [rows] x [cols] array of pixels, each pixel the list of
    its channel values, row after row.  A default-constructed [Mat] has
    no element. *)
Record Mat : Type := mkMat { rows : Z; cols : Z; elems : list (list Qc) }.

Definition Mat_new : Mat := mkMat 0 0 [].

(** [Mat::empty()] *)
Definition Mat_empty (m : Mat) : bool :=
  match elems m with [] => true | _ :: _ => false end.

(** [Mat::clone()] is a deep copy: the same value. *)
Definition Mat_clone (m : Mat) : Mat := m.

(** [Mat::zeros(r, c, CV_64F)] *)
Definition Mat_zeros (r c : Z) : Mat :=
  mkMat r c (replicate (Z.to_nat (r * c)) [0%Qc]).

(** [m.at<float>(r, c)] on a single-channel matrix: [None] outside. *)
Definition Mat_at (m : Mat) (r c : Z) : option Qc :=
  if bool_decide (0 <= r < rows m /\ 0 <= c < cols m)
  then px ← elems m !! Z.to_nat (r * cols m + c); px !! 0%nat
  else None.

Record KeyPoint : Type := mkKeyPoint { kp_pt : Point2f; kp_size : Qc; kp_angle : Qc }.
Record DMatch : Type := mkDMatch { queryIdx : Z; trainIdx : Z; distance : Qc }.

(** The arguments of [SIFT::create]. *)
Record SiftParams : Type := mkSift {
  nfeatures : Z; nOctaveLayers : Z; contrastThreshold : Qc;
  edgeThreshold : Qc; sigma : Qc }.

(** The arguments of [StereoSGBM::create]. *)
Record SgbmParams : Type := mkSgbm {
  minDisparity : Z; numDisparities : Z; blockSize : Z; P1 : Z; P2 : Z;
  disp12MaxDiff : Z; preFilterCap : Z; uniquenessRatio : Z;
  speckleWindowSize : Z; speckleRange : Z; mode : Z }.

(** [TermCriteria(type, maxCount, epsilon)] *)
Record TermCriteria : Type := mkTerm { tc_type : Z; tc_maxCount : Z; tc_eps : Qc }.

(** Flag values of [opencv2/calib3d.hpp] and friends. *)
Definition CALIB_FIX_ASPECT_RATIO : Z := 2.
Definition CALIB_FIX_PRINCIPAL_POINT : Z := 4.
Definition CALIB_ZERO_TANGENT_DIST : Z := 8.
Definition CALIB_FIX_INTRINSIC : Z := 256.
Definition CALIB_ZERO_DISPARITY : Z := 1024.
Definition TermCriteria_COUNT : Z := 1.
Definition TermCriteria_EPS : Z := 2.
Definition MODE_SGBM_3WAY : Z := 2.
Definition IMREAD_COLOR : Z := 1.


(** Results of the calibration entry points. *)
Record CalibResult : Type := mkCalib {
  cal_rms : Qc; cal_K : Mat; cal_dist : Mat }.
Record StereoResult : Type := mkStereo {
  ste_rms : Qc; ste_R : Mat; ste_T : Mat; ste_E : Mat; ste_F : Mat }.
Record RectifyResult : Type := mkRectify {
  rec_R1 : Mat; rec_R2 : Mat; rec_P1 : Mat; rec_P2 : Mat; rec_Q : Mat }.

(** ** The OpenCV interface

    Every field is one OpenCV call made by the source, with the
    arguments the source passes.  In-out arguments come back in the
    result.  [stereoCalibrate] is called with [CALIB_FIX_INTRINSIC], under
    which OpenCV leaves the four intrinsic arguments as they are.  The two
    laws are OpenCV's contracts on the shape of results: [projectPoints]
    yields one image point per object point, and [triangulatePoints] a
    single-channel matrix of 4 rows and one column per correspondence. *)
Class OpenCV : Type := {
  imdecode : list Byte.byte -> Z -> Mat;
  remap : Mat -> Mat -> Mat -> Mat;
  cvtColor_BGR2GRAY : Mat -> Mat;
  sgbm_compute : SgbmParams -> Mat -> Mat -> Mat;
  reprojectImageTo3D : Mat -> Mat -> bool -> Mat;
  bilateralFilter : Mat -> Z -> Qc -> Qc -> Mat;
  sift_detectAndCompute : SiftParams -> Mat -> list KeyPoint * Mat;
  bf_match : Mat -> Mat -> list DMatch;
  hconcat : Mat -> Mat -> Mat;
  mat_mul : Mat -> Mat -> Mat;
  triangulatePoints : Mat -> Mat -> list Point2f -> list Point2f -> Mat;
  projectPoints : list Point3f -> Mat -> Mat -> Mat -> Mat -> list Point2f;
  sqrt_d : Qc -> Qc;
  calibrateCamera :
    list (list Point3f) -> list (list Point2f) -> Size -> Mat -> Mat -> Z ->
    CalibResult;
  stereoCalibrate :
    list (list Point3f) -> list Point2f -> list Point2f ->
    Mat -> Mat -> Mat -> Mat -> Size -> Z -> TermCriteria -> StereoResult;
  stereoRectify :
    Mat -> Mat -> Mat -> Mat -> Size -> Mat -> Mat -> Z -> Qc -> Size ->
    RectifyResult;
  initUndistortRectifyMap : Mat -> Mat -> Mat -> Mat -> Size -> Z -> Mat * Mat;
  projectPoints_length : forall pts rv tv K d,
    length (projectPoints pts rv tv K d) = length pts;
  triangulatePoints_shape : forall P1 P2 pts1 pts2,
    let points4D := triangulatePoints P1 P2 pts1 pts2 in
    rows points4D = 4 /\ cols points4D = Z.of_nat (length pts1) /\
    length (elems points4D) = (4 * length pts1)%nat /\
    Forall (fun px => px <> []) (elems points4D)
}.

(** ** Processor state: the data members of the class *)

Record Processor : Type := mkProcessor {
  cameraCount : Z;
  imageSize : Size;
  cameraMatrices : list Mat;
  distortionCoefficients : list Mat;
  rotationMatrices : list Mat;
  translationVectors : list Mat;
  rectifyMaps1 : list Mat;
  rectifyMaps2 : list Mat;
  Q : Mat;
  currentFrames : gmap Z Mat;
  frameTimestamps : gmap Z Qc;
  processedFrames : list Mat;
  disparityMap : Mat;
  depthMap : Mat;
  siftDetector : SiftParams;
  objectPoints3D : list (list Point3f);
  imagePointsPerCamera : list (list Point2f)
}.

(** Quality classes printed by [validateTriangulation]. *)
Inductive Quality : Type := HighQuality | MediumQuality | LowQuality.

(** ** Events: one constructor per line group the code prints, and one
    per calibration call, carrying the values shown or passed. *)
Inductive Event : Type :=
  | EvInitialized (cams w h : Z)
  | EvNeedTwoCamerasForCalibration
  | EvCalibrationStart
  | EvInsufficientCalibrationPoints (camIdx : Z)
  | EvCallCalibrateCamera (camIdx : Z) (objectViews imageViews : nat) (flags : Z)
  | EvCameraCalibrated (camIdx : Z) (rms : Qc) (K dist : Mat)
  | EvStereoStart (cam1 cam2 : Z)
  | EvStereoMissingPoints
  | EvCallStereoCalibrate (cam1 cam2 : Z) (views : nat) (flags : Z) (crit : TermCriteria)
  | EvStereoDone (rms : Qc) (R T : Mat)
  | EvRectificationConfigured
  | EvBundleAdjustmentStart
  | EvBundleAdjustmentDone
  | EvProcessingFrames (n : nat)
  | EvSyncWarning (ms : Qc)
  | EvDecodeError (cameraId : Z)
  | EvFrameDecoded (cameraId : Z) (r c : Z) (timestamp : Qc)
  | EvMultiFrameDone (syncMs : Qc) (frames : nat)
  | EvDisparityStart
  | EvCallRemap (src map1 map2 : Mat)
  | EvDisparityDone (r c : Z)
  | EvDisparityValidation (validCount : Z) (total : Z) (ratioPercent : Qc)
  | EvSiftStart
  | EvSiftDetected (cameraId : Z) (n : nat)
  | EvGoodMatches (n : nat)
  | EvTriangulationStart
  | EvTriangulationNeedsTwoCameras
  | EvInsufficientCorrespondences
  | EvTriangulated (n : nat)
  | EvValidatingTriangulation
  | EvMeanReprojectionError (e : option Qc)
  | EvTriangulationQuality (q : Quality)
  | EvStoring3DPoints (n : nat)
  | EvMeasurementsStart
  | EvDepthStatistics (meanDepth stdDepth uncertainty : Qc)
  | EvMeasurementsDone.

(** ** The monad: state, output, undefined behaviour *)

Definition M (A : Type) : Type := Processor -> option (A * Processor * list Event).

Definition ret {A} (a : A) : M A := fun s => Some (a, s, []).

Definition bind {A B} (m : M A) (f : A -> M B) : M B := fun s =>
  match m s with
  | None => None
  | Some (a, s1, l1) =>
      match f a s1 with
      | None => None
      | Some (b, s2, l2) => Some (b, s2, l1 ++ l2)
      end
  end.

#[export] Instance M_ret : MRet M := @ret.
#[export] Instance M_bind : MBind M := fun A B f m => bind m f.

Definition get : M Processor := fun s => Some (s, s, []).
Definition modify (f : Processor -> Processor) : M unit := fun s => Some (tt, f s, []).
Definition emit (e : Event) : M unit := fun s => Some (tt, s, [e]).
Definition undefined {A} : M A := fun _ => None.

(** [v[i]] on a [std::vector]: undefined behaviour out of range.  An [int]
    index is converted to [size_t], so a negative one is out of range. *)
Definition vec_get {A} (v : list A) (i : Z) : M A :=
  if bool_decide (0 <= i)
  then match v !! Z.to_nat i with Some a => ret a | None => undefined end
  else undefined.

(** [v[i] = a] *)
Definition vec_set {A} (v : list A) (i : Z) (a : A) : M (list A) :=
  if bool_decide (0 <= i < Z.of_nat (length v))
  then ret (<[Z.to_nat i := a]> v)
  else undefined.

(** [for (x : xs) body(x)] *)
Fixpoint for_each {A} (xs : list A) (body : A -> M unit) : M unit :=
  match xs with
  | [] => ret tt
  | x :: xs' => body x;; for_each xs' body
  end.

(** The indices of [for (int i = 0; i < n; i++)]. *)
Definition range (n : Z) : list Z := Z.of_nat <$> seq 0 (Z.to_nat n).

(** ** Assignments to the data members *)

Definition set_cameraMatrices v (s : Processor) : Processor :=
  mkProcessor (cameraCount s) (imageSize s) v (distortionCoefficients s)
    (rotationMatrices s) (translationVectors s) (rectifyMaps1 s)
    (rectifyMaps2 s) (Q s) (currentFrames s) (frameTimestamps s)
    (processedFrames s) (disparityMap s) (depthMap s) (siftDetector s)
    (objectPoints3D s) (imagePointsPerCamera s).

Definition set_distortionCoefficients v (s : Processor) : Processor :=
  mkProcessor (cameraCount s) (imageSize s) (cameraMatrices s) v
    (rotationMatrices s) (translationVectors s) (rectifyMaps1 s)
    (rectifyMaps2 s) (Q s) (currentFrames s) (frameTimestamps s)
    (processedFrames s) (disparityMap s) (depthMap s) (siftDetector s)
    (objectPoints3D s) (imagePointsPerCamera s).

Definition set_rotationMatrices v (s : Processor) : Processor :=
  mkProcessor (cameraCount s) (imageSize s) (cameraMatrices s)
    (distortionCoefficients s) v (translationVectors s) (rectifyMaps1 s)
    (rectifyMaps2 s) (Q s) (currentFrames s) (frameTimestamps s)
    (processedFrames s) (disparityMap s) (depthMap s) (siftDetector s)
    (objectPoints3D s) (imagePointsPerCamera s).

Definition set_translationVectors v (s : Processor) : Processor :=
  mkProcessor (cameraCount s) (imageSize s) (cameraMatrices s)
    (distortionCoefficients s) (rotationMatrices s) v (rectifyMaps1 s)
    (rectifyMaps2 s) (Q s) (currentFrames s) (frameTimestamps s)
    (processedFrames s) (disparityMap s) (depthMap s) (siftDetector s)
    (objectPoints3D s) (imagePointsPerCamera s).

Definition set_rectifyMaps1 v (s : Processor) : Processor :=
  mkProcessor (cameraCount s) (imageSize s) (cameraMatrices s)
    (distortionCoefficients s) (rotationMatrices s) (translationVectors s) v
    (rectifyMaps2 s) (Q s) (currentFrames s) (frameTimestamps s)
    (processedFrames s) (disparityMap s) (depthMap s) (siftDetector s)
    (objectPoints3D s) (imagePointsPerCamera s).

Definition set_rectifyMaps2 v (s : Processor) : Processor :=
  mkProcessor (cameraCount s) (imageSize s) (cameraMatrices s)
    (distortionCoefficients s) (rotationMatrices s) (translationVectors s)
    (rectifyMaps1 s) v (Q s) (currentFrames s) (frameTimestamps s)
    (processedFrames s) (disparityMap s) (depthMap s) (siftDetector s)
    (objectPoints3D s) (imagePointsPerCamera s).

Definition set_Q v (s : Processor) : Processor :=
  mkProcessor (cameraCount s) (imageSize s) (cameraMatrices s)
    (distortionCoefficients s) (rotationMatrices s) (translationVectors s)
    (rectifyMaps1 s) (rectifyMaps2 s) v (currentFrames s) (frameTimestamps s)
    (processedFrames s) (disparityMap s) (depthMap s) (siftDetector s)
    (objectPoints3D s) (imagePointsPerCamera s).

Definition set_currentFrames v (s : Processor) : Processor :=
  mkProcessor (cameraCount s) (imageSize s) (cameraMatrices s)
    (distortionCoefficients s) (rotationMatrices s) (translationVectors s)
    (rectifyMaps1 s) (rectifyMaps2 s) (Q s) v (frameTimestamps s)
    (processedFrames s) (disparityMap s) (depthMap s) (siftDetector s)
    (objectPoints3D s) (imagePointsPerCamera s).

Definition set_frameTimestamps v (s : Processor) : Processor :=
  mkProcessor (cameraCount s) (imageSize s) (cameraMatrices s)
    (distortionCoefficients s) (rotationMatrices s) (translationVectors s)
    (rectifyMaps1 s) (rectifyMaps2 s) (Q s) (currentFrames s) v
    (processedFrames s) (disparityMap s) (depthMap s) (siftDetector s)
    (objectPoints3D s) (imagePointsPerCamera s).

Definition set_processedFrames v (s : Processor) : Processor :=
  mkProcessor (cameraCount s) (imageSize s) (cameraMatrices s)
    (distortionCoefficients s) (rotationMatrices s) (translationVectors s)
    (rectifyMaps1 s) (rectifyMaps2 s) (Q s) (currentFrames s)
    (frameTimestamps s) v (disparityMap s) (depthMap s) (siftDetector s)
    (objectPoints3D s) (imagePointsPerCamera s).

Definition set_disparityMap v (s : Processor) : Processor :=
  mkProcessor (cameraCount s) (imageSize s) (cameraMatrices s)
    (distortionCoefficients s) (rotationMatrices s) (translationVectors s)
    (rectifyMaps1 s) (rectifyMaps2 s) (Q s) (currentFrames s)
    (frameTimestamps s) (processedFrames s) v (depthMap s) (siftDetector s)
    (objectPoints3D s) (imagePointsPerCamera s).

Definition set_depthMap v (s : Processor) : Processor :=
  mkProcessor (cameraCount s) (imageSize s) (cameraMatrices s)
    (distortionCoefficients s) (rotationMatrices s) (translationVectors s)
    (rectifyMaps1 s) (rectifyMaps2 s) (Q s) (currentFrames s)
    (frameTimestamps s) (processedFrames s) (disparityMap s) v
    (siftDetector s) (objectPoints3D s) (imagePointsPerCamera s).

(** ** The member functions *)

(** The chessboard corners both calibration routines generate:
    [patternSize(9, 6)], [squareSize = 25.0f]. *)
Definition qz (z : Z) : Qc := Q2Qc (inject_Z z).

Definition patternPoints : list Point3f :=
  i ← range 6; j ← range 9; [mkPoint3f (qz j * qz 25)%Qc (qz i * qz 25)%Qc 0%Qc].

(** The flags [performAutomaticCalibration] passes to [calibrateCamera]. *)
Definition calibrationFlags : Z :=
  Z.lor (Z.lor CALIB_FIX_PRINCIPAL_POINT CALIB_FIX_ASPECT_RATIO)
        CALIB_ZERO_TANGENT_DIST.

Definition stereoCriteria : TermCriteria :=
  mkTerm (TermCriteria_COUNT + TermCriteria_EPS) 100 (Q2Qc (1 # 100000)).

Definition CV_16SC2 : Z := 11.

(** [calculateReprojectedPoint]: the placeholder of the source. *)
Definition calculateReprojectedPoint
    (cameraIdx pointIdx : Z) (params : list Qc) : Point2f :=
  mkPoint2f 0%Qc 0%Qc.

(** [vector<double>::operator[]] on the parameter vector. *)
Definition param_get (params : list Qc) (i : nat) : M Qc :=
  match params !! i with Some x => mret x | None => undefined end.

(** The order of the keys of [std::map<int, Mat>]. *)
Definition key_le (a b : Z * Mat) : Prop := a.1 <= b.1.

#[export] Instance key_le_dec : RelDecision key_le :=
  fun a b => Z_le_dec a.1 b.1.

Section WithOpenCV.
Context `{cv : OpenCV}.

(** [initialize(width, height, numCameras)]; [resize] keeps the entries
    already there and pads with default-constructed ones.  A negative
    count converts to a size no vector can have: [resize] throws, and
    the call has no result. *)
Definition initialize (w h numCameras : Z) : M bool :=
  let n := Z.to_nat numCameras in
  (if bool_decide (numCameras < 0) then undefined else mret tt);;
  modify (fun s =>
    mkProcessor numCameras (mkSize w h)
      (resize n Mat_new (cameraMatrices s))
      (resize n Mat_new (distortionCoefficients s))
      (resize n Mat_new (rotationMatrices s))
      (resize n Mat_new (translationVectors s))
      (resize n Mat_new (rectifyMaps1 s))
      (resize n Mat_new (rectifyMaps2 s))
      (Q s) (currentFrames s) (frameTimestamps s)
      (resize n Mat_new (processedFrames s))
      (disparityMap s) (depthMap s)
      (mkSift 0 4 (Q2Qc (3 # 100)) (qz 10) (Q2Qc (16 # 10)))
      (objectPoints3D s)
      (resize n [] (imagePointsPerCamera s)));;
  emit (EvInitialized numCameras w h);;
  mret true.

(** [calculateReprojectionResiduals(params, residuals)]: returns the new
    contents of [residuals]. *)
Definition residualsOfCamera (cam : Z) (params : list Qc) (pts : list Point2f)
    : list Qc :=
  '(pointIdx, observed) ← imap (fun i p => (Z.of_nat i, p)) pts;
  let reprojected := calculateReprojectedPoint cam pointIdx params in
  [(p2x observed - p2x reprojected)%Qc; (p2y observed - p2y reprojected)%Qc].

Fixpoint residualsLoop (cams : list Z) (params : list Qc) (residuals : list Qc)
    : M (list Qc) :=
  match cams with
  | [] => mret residuals
  | cam :: cams' =>
      s ← get;
      pts ← vec_get (imagePointsPerCamera s) cam;
      residualsLoop cams' params (residuals ++ residualsOfCamera cam params pts)
  end.

Definition calculateReprojectionResiduals (params : list Qc) (residuals : list Qc)
    : M (list Qc) :=
  s ← get;
  residualsLoop (range (cameraCount s)) params [].

(** The lambda [residualFunction] of [performBundleAdjustment]: it reads
    fifteen parameters per camera into locals that are never used, then
    calls [calculateReprojectionResiduals]. *)
Fixpoint readParams (params : list Qc) (paramIdx : nat) (count : nat) : M nat :=
  match count with
  | O => mret paramIdx
  | S k => _ ← param_get params paramIdx; readParams params (S paramIdx) k
  end.

Fixpoint residualParamsLoop (cams : list Z) (params : list Qc) (paramIdx : nat)
    : M nat :=
  match cams with
  | [] => mret paramIdx
  | _ :: cams' =>
      i1 ← readParams params paramIdx 4;      (* fx, fy, cx, cy *)
      i2 ← readParams params i1 5;            (* distCoeffs[0..4] *)
      i3 ← readParams params i2 6;            (* rvec[i], tvec[i], i < 3 *)
      residualParamsLoop cams' params i3
  end.

Definition residualFunction (params : list Qc) (residuals : list Qc)
    : M (list Qc) :=
  s ← get;
  _ ← residualParamsLoop (range (cameraCount s)) params 0;
  calculateReprojectionResiduals params residuals.

(** [performBundleAdjustment]: counts the stored image points, defines
    [residualFunction], and prints that it is done. *)
Fixpoint totalPointsLoop (cams : list Z) (totalPoints : Z) : M Z :=
  match cams with
  | [] => mret totalPoints
  | cam :: cams' =>
      s ← get;
      pts ← vec_get (imagePointsPerCamera s) cam;
      totalPointsLoop cams' (totalPoints + Z.of_nat (length pts))
  end.

Definition performBundleAdjustment : M unit :=
  emit EvBundleAdjustmentStart;;
  s ← get;
  _ ← totalPointsLoop (range (cameraCount s)) 0;
  emit EvBundleAdjustmentDone.

(** [performStereoCalibration(cam1Idx, cam2Idx)].  The image points
    passed to [stereoCalibrate] are the first [numImages] stored for each
    camera, as flat lists: the source writes the two arguments as
    [vector<vector<Point2f>>] built from iterators over [Point2f], which
    a compiler refuses as written.  No stored point exists on any
    processor the public interface can produce, where the function
    returns at its first test. *)
Definition performStereoCalibration (cam1Idx cam2Idx : Z) : M bool :=
  emit (EvStereoStart cam1Idx cam2Idx);;
  s ← get;
  pts1 ← vec_get (imagePointsPerCamera s) cam1Idx;
  missing ← (if bool_decide (pts1 = []) then mret true
             else pts2 ← vec_get (imagePointsPerCamera s) cam2Idx;
                  mret (bool_decide (pts2 = [])));
  if (missing : bool) then
    emit EvStereoMissingPoints;; mret false
  else
    pts2 ← vec_get (imagePointsPerCamera s) cam2Idx;
    let numImages := Nat.min (length pts1) (length pts2) in
    let objectPoints := replicate numImages patternPoints in
    K1 ← vec_get (cameraMatrices s) cam1Idx;
    D1 ← vec_get (distortionCoefficients s) cam1Idx;
    K2 ← vec_get (cameraMatrices s) cam2Idx;
    D2 ← vec_get (distortionCoefficients s) cam2Idx;
    emit (EvCallStereoCalibrate cam1Idx cam2Idx numImages
            CALIB_FIX_INTRINSIC stereoCriteria);;
    let r := stereoCalibrate objectPoints (take numImages pts1)
               (take numImages pts2) K1 D1 K2 D2 (imageSize s)
               CALIB_FIX_INTRINSIC stereoCriteria in
    rm ← vec_set (rotationMatrices s) cam2Idx (Mat_clone (ste_R r));
    modify (set_rotationMatrices rm);;
    tv ← vec_set (translationVectors s) cam2Idx (Mat_clone (ste_T r));
    modify (set_translationVectors tv);;
    emit (EvStereoDone (ste_rms r) (ste_R r) (ste_T r));;
    let rr := stereoRectify K1 D1 K2 D2 (imageSize s) (ste_R r) (ste_T r)
                CALIB_ZERO_DISPARITY 1%Qc (imageSize s) in
    modify (set_Q (rec_Q rr));;
    let m1 := initUndistortRectifyMap K1 D1 (rec_R1 rr) (rec_P1 rr)
                (imageSize s) CV_16SC2 in
    a1 ← vec_set (rectifyMaps1 s) cam1Idx m1.1;
    a2 ← vec_set (rectifyMaps2 s) cam1Idx m1.2;
    let m2 := initUndistortRectifyMap K2 D2 (rec_R2 rr) (rec_P2 rr)
                (imageSize s) CV_16SC2 in
    b1 ← vec_set a1 cam2Idx m2.1;
    b2 ← vec_set a2 cam2Idx m2.2;
    modify (set_rectifyMaps1 b1);;
    modify (set_rectifyMaps2 b2);;
    emit EvRectificationConfigured;;
    mret true.

(** The body of the per-camera loop of [performAutomaticCalibration]. *)
Definition calibrateOneCamera (camIdx : Z) : M unit :=
  s ← get;
  pts ← vec_get (imagePointsPerCamera s) camIdx;
  if bool_decide (length pts < 10)%nat then
    emit (EvInsufficientCalibrationPoints camIdx)
  else
    let objectPoints := replicate (length pts) patternPoints in
    K ← vec_get (cameraMatrices s) camIdx;
    D ← vec_get (distortionCoefficients s) camIdx;
    emit (EvCallCalibrateCamera camIdx (length objectPoints) 1 calibrationFlags);;
    let r := calibrateCamera objectPoints [pts] (imageSize s) K D
               calibrationFlags in
    cm ← vec_set (cameraMatrices s) camIdx (cal_K r);
    modify (set_cameraMatrices cm);;
    dc ← vec_set (distortionCoefficients s) camIdx (cal_dist r);
    modify (set_distortionCoefficients dc);;
    emit (EvCameraCalibrated camIdx (cal_rms r) (cal_K r) (cal_dist r)).

(** [performAutomaticCalibration] *)
Definition performAutomaticCalibration : M bool :=
  s ← get;
  if bool_decide (cameraCount s < 2) then
    emit EvNeedTwoCamerasForCalibration;; mret false
  else
    emit EvCalibrationStart;;
    for_each (range (cameraCount s)) calibrateOneCamera;;
    (if bool_decide (cameraCount s >= 2)
     then _ ← performStereoCalibration 0 1; mret tt
     else mret tt);;
    performBundleAdjustment;;
    mret true.

(** *** Frame processing *)

(** The synchronisation tolerance of [processMultiFrame], in seconds: the
    double the literal [0.016667] denotes, as the rational it is.  The
    timestamps and their difference are exact rationals here; the source
    rounds the difference to a double. *)
Definition syncTolerance : Qc := Q2Qc (1200983919830145 # 72057594037927936).

(** [std::minmax_element] over a non-empty range: the value of the first
    smallest and of the last largest element. *)
Definition minmax_step (acc : Qc * Qc) (t : Qc) : Qc * Qc :=
  (if bool_decide (t < acc.1)%Qc then t else acc.1,
   if bool_decide (t < acc.2)%Qc then acc.2 else t).

Definition minmax_element (first : Qc) (rest : list Qc) : Qc * Qc :=
  foldl minmax_step (first, first) rest.

(** Iteration over [std::map<int, Mat>]: by increasing key. *)
Definition frames_in_order (m : gmap Z Mat) : list (Z * Mat) :=
  merge_sort key_le (map_to_list m).

(** [compare(src, value, dst, CMP_GT)] and [countNonZero], on the first
    channel. *)
Definition channel (c : nat) (px : list Qc) : Qc := default 0%Qc (px !! c).

Definition compare_GT (src : Mat) (value : Qc) : Mat :=
  mkMat (rows src) (cols src)
    ((fun px => [if bool_decide (value < channel 0 px)%Qc then qz 255 else 0%Qc])
       <$> elems src).

Definition countNonZero (src : Mat) : Z :=
  Z.of_nat (length (filter (fun px => channel 0 px <> 0%Qc) (elems src))).

(** [meanStdDev(src, mean, stddev, mask)], as OpenCV documents it: over
    the pixels the mask selects (all of them without a mask), for each
    channel, the mean and the square root of the mean squared deviation. *)
Definition Qc_sum (l : list Qc) : Qc := foldr Qcplus 0%Qc l.

Definition selected (src : Mat) (mask : option Mat) : list (list Qc) :=
  match mask with
  | None => elems src
  | Some m =>
      (fst <$> filter (fun pm => channel 0 pm.2 <> 0%Qc)
                 (zip (elems src) (elems m)))
  end.

Definition mean_of (xs : list Qc) : Qc :=
  (Qc_sum xs / qz (Z.of_nat (length xs)))%Qc.

Definition variance_of (xs : list Qc) : Qc :=
  let m := mean_of xs in
  (Qc_sum ((fun x => (x - m) * (x - m)) <$> xs) / qz (Z.of_nat (length xs)))%Qc.

Definition meanStdDev (src : Mat) (mask : option Mat) : Scalar * Scalar :=
  let px := selected src mask in
  let ch c := channel c <$> px in
  (mkScalar (mean_of (ch 0%nat)) (mean_of (ch 1%nat))
            (mean_of (ch 2%nat)) (mean_of (ch 3%nat)),
   mkScalar (sqrt_d (variance_of (ch 0%nat))) (sqrt_d (variance_of (ch 1%nat)))
            (sqrt_d (variance_of (ch 2%nat))) (sqrt_d (variance_of (ch 3%nat)))).

(** [cv::norm] of a [Point2f] and the difference of two points. *)
Definition Point2f_sub (a b : Point2f) : Point2f :=
  mkPoint2f (p2x a - p2x b)%Qc (p2y a - p2y b)%Qc.

Definition norm (p : Point2f) : Qc :=
  sqrt_d (p2x p * p2x p + p2y p * p2y p)%Qc.

(** [rectifyFrames]: [camIdx < rectifyMaps1.size()] compares an [int]
    with a [size_t], so [camIdx] is first converted to 64 bits unsigned. *)
Definition to_size_t (i : Z) : Z := i `mod` 2 ^ 64.

Definition rectifyOne (framePair : Z * Mat) : M unit :=
  let camIdx := framePair.1 in
  s ← get;
  useMaps ← (if bool_decide (to_size_t camIdx < Z.of_nat (length (rectifyMaps1 s)))
             then m1 ← vec_get (rectifyMaps1 s) camIdx; mret (negb (Mat_empty m1))
             else mret false);
  if (useMaps : bool) then
    m1 ← vec_get (rectifyMaps1 s) camIdx;
    m2 ← vec_get (rectifyMaps2 s) camIdx;
    let rectified := remap framePair.2 m1 m2 in
    pf ← vec_set (processedFrames s) camIdx rectified;
    modify (set_processedFrames pf)
  else
    pf ← vec_set (processedFrames s) camIdx (Mat_clone framePair.2);
    modify (set_processedFrames pf).

Definition rectifyFrames : M unit :=
  s ← get;
  for_each (frames_in_order (currentFrames s)) rectifyOne.

(** [validateDisparityMap] *)
Definition validateDisparityMap : M unit :=
  s ← get;
  if Mat_empty (disparityMap s) then mret tt
  else
    let validPixels := compare_GT (disparityMap s) 0%Qc in
    let validCount := countNonZero validPixels in
    let total := rows (disparityMap s) * cols (disparityMap s) in
    let validRatio := (qz validCount / qz total)%Qc in
    emit (EvDisparityValidation validCount total (validRatio * qz 100)%Qc).

(** [generateStereoDepthMap] *)
Definition sgbmParams : SgbmParams :=
  mkSgbm 0 128 9 600 2400 20 16 2 200 25 MODE_SGBM_3WAY.

Definition generateStereoDepthMap : M unit :=
  s ← get;
  if bool_decide (size (currentFrames s) < 2)%nat then mret tt
  else
    match frames_in_order (currentFrames s) with
    | (_, leftFrame) :: (_, rightFrame) :: _ =>
        emit EvDisparityStart;;
        l1 ← vec_get (rectifyMaps1 s) 0;
        l2 ← vec_get (rectifyMaps2 s) 0;
        emit (EvCallRemap leftFrame l1 l2);;
        let leftRectified := remap leftFrame l1 l2 in
        r1 ← vec_get (rectifyMaps1 s) 1;
        r2 ← vec_get (rectifyMaps2 s) 1;
        emit (EvCallRemap rightFrame r1 r2);;
        let rightRectified := remap rightFrame r1 r2 in
        let leftGray := cvtColor_BGR2GRAY leftRectified in
        let rightGray := cvtColor_BGR2GRAY rightRectified in
        let disparity := sgbm_compute sgbmParams leftGray rightGray in
        modify (set_disparityMap disparity);;
        modify (set_depthMap (reprojectImageTo3D disparity (Q s) true));;
        s1 ← get;
        let depthFiltered := bilateralFilter (depthMap s1) 9 (qz 75) (qz 75) in
        modify (set_depthMap depthFiltered);;
        emit (EvDisparityDone (rows disparity) (cols disparity));;
        validateDisparityMap
    | _ => undefined
    end.

(** [storeMatchesForTriangulation]: an empty body. *)
Definition storeMatchesForTriangulation
    (kp1 kp2 : list KeyPoint) (matches : list DMatch) : M unit := mret tt.

(** [detectAndMatchFeatures].  [allKeypoints] and [allDescriptors] have one
    slot per frame and the loop fills slot [frameIdx] for the frame number
    [frameIdx] in key order: the slots are the images of the frames. *)
Definition detectAndMatchFeatures : M unit :=
  emit EvSiftStart;;
  s ← get;
  let frames := frames_in_order (currentFrames s) in
  let detected :=
    (fun framePair : Z * Mat =>
       (framePair.1,
        sift_detectAndCompute (siftDetector s) (cvtColor_BGR2GRAY framePair.2)))
      <$> frames in
  let allKeypoints := (fun d => d.2.1) <$> detected in
  let allDescriptors := (fun d => d.2.2) <$> detected in
  for_each detected (fun d => emit (EvSiftDetected d.1 (length d.2.1)));;
  match allDescriptors, allKeypoints with
  | d0 :: d1 :: _, k0 :: k1 :: _ =>
      if negb (Mat_empty d0) && negb (Mat_empty d1) then
        let matches := bf_match d0 d1 in
        let goodMatches :=
          filter (fun m => (distance m < Q2Qc (8 # 10) * qz 100)%Qc) matches in
        emit (EvGoodMatches (length goodMatches));;
        storeMatchesForTriangulation k0 k1 goodMatches
      else mret tt
  | _, _ => mret tt
  end.

(** [getCorrespondingPoints(points1, points2)]: an empty body, so both
    reference arguments come back as they went in. *)
Definition getCorrespondingPoints (points1 points2 : list Point2f)
    : M (list Point2f * list Point2f) := mret (points1, points2).

(** [store3DPoints]: prints the count. *)
Definition store3DPoints (points3D : list Point3f) : M unit :=
  emit (EvStoring3DPoints (length points3D)).

(** [validateTriangulation].  With no point the mean is 0/0, a NaN
    ([None]), for which both comparisons are false. *)
Definition classify (meanReprojError : option Qc) : Quality :=
  match meanReprojError with
  | None => LowQuality
  | Some e =>
      if bool_decide (e < 1)%Qc then HighQuality
      else if bool_decide (e < qz 2)%Qc then MediumQuality
      else LowQuality
  end.

Definition get_pt (v : list Point2f) (i : nat) : M Point2f :=
  match v !! i with Some p => mret p | None => undefined end.

Fixpoint totalErrorLoop (idx : list nat)
    (points1 reprojected1 points2 reprojected2 : list Point2f) (totalError : Qc)
    : M Qc :=
  match idx with
  | [] => mret totalError
  | i :: idx' =>
      p1 ← get_pt points1 i;
      q1 ← get_pt reprojected1 i;
      let error1 := norm (Point2f_sub p1 q1) in
      p2 ← get_pt points2 i;
      q2 ← get_pt reprojected2 i;
      let error2 := norm (Point2f_sub p2 q2) in
      totalErrorLoop idx' points1 reprojected1 points2 reprojected2
        (totalError + (error1 + error2))%Qc
  end.

Definition validateTriangulation
    (points3D : list Point3f) (points1 points2 : list Point2f) : M unit :=
  emit EvValidatingTriangulation;;
  s ← get;
  let rvec1 := Mat_zeros 3 1 in
  let tvec1 := Mat_zeros 3 1 in
  K0 ← vec_get (cameraMatrices s) 0;
  D0 ← vec_get (distortionCoefficients s) 0;
  let reprojected1 := projectPoints points3D rvec1 tvec1 K0 D0 in
  R1 ← vec_get (rotationMatrices s) 1;
  T1 ← vec_get (translationVectors s) 1;
  K1 ← vec_get (cameraMatrices s) 1;
  D1 ← vec_get (distortionCoefficients s) 1;
  let reprojected2 := projectPoints points3D R1 T1 K1 D1 in
  totalError ← totalErrorLoop (seq 0 (length points1))
                  points1 reprojected1 points2 reprojected2 0%Qc;
  let meanReprojError :=
    match points1 with
    | [] => None
    | _ :: _ => Some (totalError / qz (2 * Z.of_nat (length points1)))%Qc
    end in
  emit (EvMeanReprojectionError meanReprojError);;
  emit (EvTriangulationQuality (classify meanReprojError)).

(** [perform3DTriangulation].  [points4D.at<float>(r, i)], and the loop
    that divides by the fourth coordinate: the source divides floats, so
    that a zero [w] gives an infinity or a NaN there, which [Qc] cannot
    hold ([x / 0] is [0] in [Qc]); no theorem below is about the values
    this loop computes. *)
Definition mat_at (m : Mat) (r c : Z) : M Qc :=
  match Mat_at m r c with Some x => mret x | None => undefined end.

Fixpoint homogeneousLoop (idx : list Z) (points4D : Mat) (points3D : list Point3f)
    : M (list Point3f) :=
  match idx with
  | [] => mret points3D
  | i :: idx' =>
      x ← mat_at points4D 0 i;
      w ← mat_at points4D 3 i;
      y ← mat_at points4D 1 i;
      z ← mat_at points4D 2 i;
      homogeneousLoop idx' points4D
        (points3D ++ [mkPoint3f (x / w)%Qc (y / w)%Qc (z / w)%Qc])
  end.

Definition perform3DTriangulation : M unit :=
  emit EvTriangulationStart;;
  s ← get;
  if bool_decide (size (currentFrames s) < 2)%nat then
    emit EvTriangulationNeedsTwoCameras
  else
    pts ← getCorrespondingPoints [] [];
    let points1 := pts.1 in
    let points2 := pts.2 in
    if bool_decide (length points1 < 8)%nat then
      emit EvInsufficientCorrespondences
    else
      K0 ← vec_get (cameraMatrices s) 0;
      let P1 := hconcat K0 (Mat_zeros 3 1) in
      R1 ← vec_get (rotationMatrices s) 1;
      T1 ← vec_get (translationVectors s) 1;
      let RT := hconcat R1 T1 in
      K1 ← vec_get (cameraMatrices s) 1;
      let P2 := mat_mul K1 RT in
      let points4D := triangulatePoints P1 P2 points1 points2 in
      points3D ← homogeneousLoop (range (cols points4D)) points4D [];
      emit (EvTriangulated (length points3D));;
      validateTriangulation points3D points1 points2;;
      store3DPoints points3D.

(** [calculatePreciseMeasurements] *)
Definition calculatePreciseMeasurements : M unit :=
  emit EvMeasurementsStart;;
  s ← get;
  (if negb (Mat_empty (depthMap s)) then
     let stats := meanStdDev (depthMap s) None in
     let meanDepth := stats.1 in
     let stdDepth := stats.2 in
     emit (EvDepthStatistics (sc0 meanDepth) (sc0 stdDepth)
             (sc0 stdDepth * Q2Qc (196 # 100))%Qc)
   else mret tt);;
  emit EvMeasurementsDone.

(** [processMultiFrame(frameDataList, timestamps, cameraIds)] *)
Definition decodeOne (timestamps : list Qc) (cameraIds : list Z)
    (item : nat * list Byte.byte) : M unit :=
  let i := Z.of_nat item.1 in
  let frame := imdecode item.2 IMREAD_COLOR in
  if Mat_empty frame then
    id ← vec_get cameraIds i;
    emit (EvDecodeError id)
  else
    id ← vec_get cameraIds i;
    s ← get;
    modify (set_currentFrames (<[id := Mat_clone frame]> (currentFrames s)));;
    id' ← vec_get cameraIds i;
    ts ← vec_get timestamps i;
    s1 ← get;
    modify (set_frameTimestamps (<[id' := ts]> (frameTimestamps s1)));;
    emit (EvFrameDecoded id (rows frame) (cols frame) ts).

Definition checkSynchronization (timestamps : list Qc) : M Qc :=
  match timestamps with
  | first :: (_ :: _) as rest =>
      let minMaxTime := minmax_element first rest in
      let maxTimeDiff := (minMaxTime.2 - minMaxTime.1)%Qc in
      (if bool_decide (syncTolerance < maxTimeDiff)%Qc
       then emit (EvSyncWarning (maxTimeDiff * qz 1000)%Qc)
       else mret tt);;
      mret maxTimeDiff
  | _ => mret 0%Qc
  end.

Definition processMultiFrame (frameDataList : list (list Byte.byte))
    (timestamps : list Qc) (cameraIds : list Z) : M unit :=
  emit (EvProcessingFrames (length frameDataList));;
  maxTimeDiff ← checkSynchronization timestamps;
  modify (set_currentFrames (∅ : gmap Z Mat));;
  modify (set_frameTimestamps (∅ : gmap Z Qc));;
  for_each (imap (fun i data => (i, data)) frameDataList)
    (decodeOne timestamps cameraIds);;
  rectifyFrames;;
  s ← get;
  (if bool_decide (2 <= size (currentFrames s))%nat
   then generateStereoDepthMap else mret tt);;
  detectAndMatchFeatures;;
  perform3DTriangulation;;
  calculatePreciseMeasurements;;
  s' ← get;
  emit (EvMultiFrameDone (maxTimeDiff * qz 1000)%Qc (size (currentFrames s'))).

(** *** The member functions as functions of the state

    What each member function returns, stores and prints, written as
    plain functions; the lemmas below prove that the monadic code computes
    exactly these. *)

Definition pointsOf (s : Processor) (c : Z) : list Point2f :=
  default [] (imagePointsPerCamera s !! Z.to_nat c).

Definition matOf (v : list Mat) (c : Z) : Mat :=
  default Mat_new (v !! Z.to_nat c).

(** What [calibrateCamera] returns for camera [c] of processor [s]. *)
Definition calibrationOf (s : Processor) (c : Z) : CalibResult :=
  calibrateCamera (replicate (length (pointsOf s c)) patternPoints)
    [pointsOf s c] (imageSize s)
    (matOf (cameraMatrices s) c) (matOf (distortionCoefficients s) c)
    calibrationFlags.

(** One iteration of the calibration loop, as a function. *)
Definition calibrateStep (s : Processor) (c : Z) : Processor :=
  if bool_decide (length (pointsOf s c) < 10)%nat then s
  else
    set_distortionCoefficients
      (<[Z.to_nat c := cal_dist (calibrationOf s c)]> (distortionCoefficients s))
      (set_cameraMatrices
         (<[Z.to_nat c := cal_K (calibrationOf s c)]> (cameraMatrices s)) s).

Definition calibrateLog (s : Processor) (c : Z) : list Event :=
  if bool_decide (length (pointsOf s c) < 10)%nat
  then [EvInsufficientCalibrationPoints c]
  else [EvCallCalibrateCamera c (length (pointsOf s c)) 1 calibrationFlags;
        EvCameraCalibrated c (cal_rms (calibrationOf s c))
          (cal_K (calibrationOf s c)) (cal_dist (calibrationOf s c))].

Definition stereoMissing (s : Processor) (c1 c2 : Z) : bool :=
  bool_decide (pointsOf s c1 = []) || bool_decide (pointsOf s c2 = []).

(** What [stereoCalibrate] and [stereoRectify] return for the pair. *)
Definition stereoOf (s : Processor) (c1 c2 : Z) : StereoResult :=
  let numImages := Nat.min (length (pointsOf s c1)) (length (pointsOf s c2)) in
  stereoCalibrate (replicate numImages patternPoints)
    (take numImages (pointsOf s c1)) (take numImages (pointsOf s c2))
    (matOf (cameraMatrices s) c1) (matOf (distortionCoefficients s) c1)
    (matOf (cameraMatrices s) c2) (matOf (distortionCoefficients s) c2)
    (imageSize s) CALIB_FIX_INTRINSIC stereoCriteria.

Definition rectifyOf (s : Processor) (c1 c2 : Z) : RectifyResult :=
  stereoRectify
    (matOf (cameraMatrices s) c1) (matOf (distortionCoefficients s) c1)
    (matOf (cameraMatrices s) c2) (matOf (distortionCoefficients s) c2)
    (imageSize s) (ste_R (stereoOf s c1 c2)) (ste_T (stereoOf s c1 c2))
    CALIB_ZERO_DISPARITY 1%Qc (imageSize s).

Definition stereoStep (s : Processor) (c1 c2 : Z) : Processor :=
  let r := stereoOf s c1 c2 in
  let rr := rectifyOf s c1 c2 in
  let m1 := initUndistortRectifyMap
              (matOf (cameraMatrices s) c1) (matOf (distortionCoefficients s) c1)
              (rec_R1 rr) (rec_P1 rr) (imageSize s) CV_16SC2 in
  let m2 := initUndistortRectifyMap
              (matOf (cameraMatrices s) c2) (matOf (distortionCoefficients s) c2)
              (rec_R2 rr) (rec_P2 rr) (imageSize s) CV_16SC2 in
  set_rectifyMaps2
    (<[Z.to_nat c2 := m2.2]> (<[Z.to_nat c1 := m1.2]> (rectifyMaps2 s)))
    (set_rectifyMaps1
       (<[Z.to_nat c2 := m2.1]> (<[Z.to_nat c1 := m1.1]> (rectifyMaps1 s)))
       (set_Q (rec_Q rr)
          (set_translationVectors
             (<[Z.to_nat c2 := ste_T r]> (translationVectors s))
             (set_rotationMatrices
                (<[Z.to_nat c2 := ste_R r]> (rotationMatrices s)) s)))).

Definition stereoOutcome (s : Processor) (c1 c2 : Z)
    : bool * Processor * list Event :=
  if stereoMissing s c1 c2
  then (false, s, [EvStereoStart c1 c2; EvStereoMissingPoints])
  else (true, stereoStep s c1 c2,
        [EvStereoStart c1 c2;
         EvCallStereoCalibrate c1 c2
           (Nat.min (length (pointsOf s c1)) (length (pointsOf s c2)))
           CALIB_FIX_INTRINSIC stereoCriteria;
         EvStereoDone (ste_rms (stereoOf s c1 c2)) (ste_R (stereoOf s c1 c2))
           (ste_T (stereoOf s c1 c2));
         EvRectificationConfigured]).

(** The whole of [performAutomaticCalibration], as a function. *)
Definition calibrationOutcome (s : Processor) : bool * Processor * list Event :=
  if bool_decide (cameraCount s < 2)
  then (false, s, [EvNeedTwoCamerasForCalibration])
  else
    let s1 := foldl calibrateStep s (range (cameraCount s)) in
    let st := stereoOutcome s1 0 1 in
    (true, st.1.2,
     [EvCalibrationStart] ++ (c ← range (cameraCount s); calibrateLog s c) ++
     st.2 ++ [EvBundleAdjustmentStart; EvBundleAdjustmentDone]).

(** The events of the per-camera loop. *)
Definition is_camera_event (e : Event) : Prop :=
  match e with
  | EvInsufficientCalibrationPoints _ | EvCallCalibrateCamera _ _ _ _
  | EvCameraCalibrated _ _ _ _ => True
  | _ => False
  end.


(** The three figures [calculatePreciseMeasurements] prints for a depth
    map: mean and standard deviation of the first channel over every
    pixel, and 1.96 times that deviation. *)
Definition depthStatistics (depth : Mat) : Event :=
  let xs := channel 0 <$> elems depth in
  EvDepthStatistics (mean_of xs) (sqrt_d (variance_of xs))
    (sqrt_d (variance_of xs) * Q2Qc (196 # 100))%Qc.

Definition origin : Point2f := mkPoint2f 0%Qc 0%Qc.

(** The reprojection error of correspondence [i] in one camera. *)
Definition reprojErr (pts reprojected : list Point2f) (i : nat) : Qc :=
  norm (Point2f_sub (default origin (pts !! i))
                    (default origin (reprojected !! i))).

(** [checkSynchronization] as functions of the timestamps. *)
Definition maxTimeDiffOf (timestamps : list Qc) : Qc :=
  match timestamps with
  | first :: (_ :: _) as rest =>
      ((minmax_element first rest).2 - (minmax_element first rest).1)%Qc
  | _ => 0%Qc
  end.

Definition syncLog (timestamps : list Qc) : list Event :=
  match timestamps with
  | _ :: _ :: _ =>
      if bool_decide (syncTolerance < maxTimeDiffOf timestamps)%Qc
      then [EvSyncWarning (maxTimeDiffOf timestamps * qz 1000)%Qc] else []
  | _ => []
  end.

(** One iteration of the decoding loop, as functions of the batch. *)
Definition idOf (cameraIds : list Z) (i : nat) : Z := default 0 (cameraIds !! i).

Definition timeOf (timestamps : list Qc) (i : nat) : Qc :=
  default 0%Qc (timestamps !! i).

Definition decodeStep (timestamps : list Qc) (cameraIds : list Z)
    (s : Processor) (item : nat * list Byte.byte) : Processor :=
  let frame := imdecode item.2 IMREAD_COLOR in
  if Mat_empty frame then s
  else
    let s1 := set_currentFrames
                (<[idOf cameraIds item.1 := frame]> (currentFrames s)) s in
    set_frameTimestamps
      (<[idOf cameraIds item.1 := timeOf timestamps item.1]> (frameTimestamps s1))
      s1.

Definition decodeLog (timestamps : list Qc) (cameraIds : list Z)
    (item : nat * list Byte.byte) : list Event :=
  let frame := imdecode item.2 IMREAD_COLOR in
  if Mat_empty frame then [EvDecodeError (idOf cameraIds item.1)]
  else [EvFrameDecoded (idOf cameraIds item.1) (rows frame) (cols frame)
          (timeOf timestamps item.1)].

(** What the loop stores, as a fold over the items. *)
Definition storeFrame (cameraIds : list Z) (m : gmap Z Mat)
    (item : nat * list Byte.byte) : gmap Z Mat :=
  let frame := imdecode item.2 IMREAD_COLOR in
  if Mat_empty frame then m else <[idOf cameraIds item.1 := frame]> m.

(** The loop writes [currentFrames] and [frameTimestamps] only. *)
Record same_calibration (s s' : Processor) : Prop := mkSame {
  same_count : cameraCount s' = cameraCount s;
  same_size : imageSize s' = imageSize s;
  same_cameraMatrices : cameraMatrices s' = cameraMatrices s;
  same_distortion : distortionCoefficients s' = distortionCoefficients s;
  same_rotation : rotationMatrices s' = rotationMatrices s;
  same_translation : translationVectors s' = translationVectors s;
  same_rectify1 : rectifyMaps1 s' = rectifyMaps1 s;
  same_rectify2 : rectifyMaps2 s' = rectifyMaps2 s;
  same_Q : Q s' = Q s;
  same_processed_length : length (processedFrames s') = length (processedFrames s);
  same_imagePoints : imagePointsPerCamera s' = imagePointsPerCamera s
}.

(** One iteration of [rectifyFrames], as a function. *)
Definition rectifiedFrame (s : Processor) (framePair : Z * Mat) : Mat :=
  if bool_decide (to_size_t framePair.1 < Z.of_nat (length (rectifyMaps1 s)))
     && negb (Mat_empty (matOf (rectifyMaps1 s) framePair.1))
  then remap framePair.2 (matOf (rectifyMaps1 s) framePair.1)
         (matOf (rectifyMaps2 s) framePair.1)
  else Mat_clone framePair.2.

Definition rectifyStep (s : Processor) (framePair : Z * Mat) : Processor :=
  set_processedFrames
    (<[Z.to_nat framePair.1 := rectifiedFrame s framePair]> (processedFrames s)) s.

Definition rectifiedState (s : Processor) : Processor :=
  foldl rectifyStep s (frames_in_order (currentFrames s)).

(** [generateStereoDepthMap] and [validateDisparityMap], as functions. *)
Definition disparityOf (s : Processor) : Mat :=
  match frames_in_order (currentFrames s) with
  | (_, leftFrame) :: (_, rightFrame) :: _ =>
      sgbm_compute sgbmParams
        (cvtColor_BGR2GRAY
           (remap leftFrame (matOf (rectifyMaps1 s) 0) (matOf (rectifyMaps2 s) 0)))
        (cvtColor_BGR2GRAY
           (remap rightFrame (matOf (rectifyMaps1 s) 1) (matOf (rectifyMaps2 s) 1)))
  | _ => disparityMap s
  end.

Definition depthOf (s : Processor) : Mat :=
  bilateralFilter (reprojectImageTo3D (disparityOf s) (Q s) true) 9 (qz 75) (qz 75).

Definition depthStep (s : Processor) : Processor :=
  set_depthMap (depthOf s)
    (set_depthMap (reprojectImageTo3D (disparityOf s) (Q s) true)
       (set_disparityMap (disparityOf s) s)).

(** The two [remap] calls of [generateStereoDepthMap]: no test precedes
    them, unlike the one in [rectifyFrames]. *)
Definition remapCalls (s : Processor) : list Event :=
  match frames_in_order (currentFrames s) with
  | (_, leftFrame) :: (_, rightFrame) :: _ =>
      [EvCallRemap leftFrame (matOf (rectifyMaps1 s) 0) (matOf (rectifyMaps2 s) 0);
       EvCallRemap rightFrame (matOf (rectifyMaps1 s) 1) (matOf (rectifyMaps2 s) 1)]
  | _ => []
  end.

Definition validationLog (disparity : Mat) : list Event :=
  if Mat_empty disparity then []
  else [EvDisparityValidation (countNonZero (compare_GT disparity 0%Qc))
          (rows disparity * cols disparity)
          (qz (countNonZero (compare_GT disparity 0%Qc))
           / qz (rows disparity * cols disparity) * qz 100)%Qc].

Definition batchItems (frameDataList : list (list Byte.byte))
    : list (nat * list Byte.byte) :=
  imap (fun i data => (i, data)) frameDataList.


(** What [detectAndMatchFeatures] detects, frame by frame in key
    order, the matches it keeps, and what it prints. *)
Definition detectedFeatures (s : Processor) : list (Z * (list KeyPoint * Mat)) :=
  (fun framePair : Z * Mat =>
     (framePair.1,
      sift_detectAndCompute (siftDetector s) (cvtColor_BGR2GRAY framePair.2)))
    <$> frames_in_order (currentFrames s).

Definition goodMatchesOf (d0 d1 : Mat) : list DMatch :=
  filter (fun m => (distance m < Q2Qc (8 # 10) * qz 100)%Qc) (bf_match d0 d1).

Definition featureLog (s : Processor) : list Event :=
  [EvSiftStart] ++
  ((fun d : Z * (list KeyPoint * Mat) => EvSiftDetected d.1 (length d.2.1))
     <$> detectedFeatures s) ++
  match detectedFeatures s with
  | d0 :: d1 :: _ =>
      if negb (Mat_empty d0.2.2) && negb (Mat_empty d1.2.2)
      then [EvGoodMatches (length (goodMatchesOf d0.2.2 d1.2.2))]
      else []
  | _ => []
  end.

(** The camera id of a detection line. *)
Definition detectedCamera (e : Event) : option Z :=
  match e with EvSiftDetected c _ => Some c | _ => None end.

(** The stages of [processMultiFrame] after decoding, as functions. *)
Definition clearedState (s : Processor) : Processor :=
  set_frameTimestamps (∅ : gmap Z Qc) (set_currentFrames (∅ : gmap Z Mat) s).

Definition decodedState (timestamps : list Qc) (cameraIds : list Z)
    (frameDataList : list (list Byte.byte)) (s : Processor) : Processor :=
  foldl (decodeStep timestamps cameraIds) (clearedState s)
    (batchItems frameDataList).

Definition depthStage (s : Processor) : Processor :=
  if bool_decide (2 <= size (currentFrames s))%nat then depthStep s else s.

Definition depthStageLog (s : Processor) : list Event :=
  if bool_decide (2 <= size (currentFrames s))%nat
  then [EvDisparityStart] ++ remapCalls s ++
       [EvDisparityDone (rows (disparityOf s)) (cols (disparityOf s))] ++
       validationLog (disparityOf s)
  else [].

Definition triangulationLog (s : Processor) : list Event :=
  [EvTriangulationStart;
   if bool_decide (size (currentFrames s) < 2)%nat
   then EvTriangulationNeedsTwoCameras
   else EvInsufficientCorrespondences].

Definition measurementLog (s : Processor) : list Event :=
  if Mat_empty (depthMap s)
  then [EvMeasurementsStart; EvMeasurementsDone]
  else [EvMeasurementsStart; depthStatistics (depthMap s); EvMeasurementsDone].

Definition frameState (timestamps : list Qc) (cameraIds : list Z)
    (frameDataList : list (list Byte.byte)) (s : Processor) : Processor :=
  depthStage (rectifiedState (decodedState timestamps cameraIds frameDataList s)).

Definition frameLog (timestamps : list Qc) (cameraIds : list Z)
    (frameDataList : list (list Byte.byte)) (s : Processor) : list Event :=
  let s2 := rectifiedState (decodedState timestamps cameraIds frameDataList s) in
  let s3 := depthStage s2 in
  [EvProcessingFrames (length frameDataList)] ++
  syncLog timestamps ++
  (item ← batchItems frameDataList; decodeLog timestamps cameraIds item) ++
  depthStageLog s2 ++ featureLog s3 ++ triangulationLog s3 ++
  measurementLog s3 ++
  [EvMultiFrameDone (maxTimeDiffOf timestamps * qz 1000)%Qc
     (size (currentFrames s3))].



(** [initialize], as a function of the state. *)
Definition initializedState (w h numCameras : Z) (s : Processor) : Processor :=
  let n := Z.to_nat numCameras in
  mkProcessor numCameras (mkSize w h)
    (resize n Mat_new (cameraMatrices s))
    (resize n Mat_new (distortionCoefficients s))
    (resize n Mat_new (rotationMatrices s))
    (resize n Mat_new (translationVectors s))
    (resize n Mat_new (rectifyMaps1 s))
    (resize n Mat_new (rectifyMaps2 s))
    (Q s) (currentFrames s) (frameTimestamps s)
    (resize n Mat_new (processedFrames s))
    (disparityMap s) (depthMap s)
    (mkSift 0 4 (Q2Qc (3 # 100)) (qz 10) (Q2Qc (16 # 10)))
    (objectPoints3D s)
    (resize n [] (imagePointsPerCamera s)).


(** The batches [processMultiFrame] has a defined behaviour on: a camera
    id for every frame and, for every frame that decodes, a timestamp and
    an id that is the index of a configured camera. *)
Definition batch_defined (s : Processor) (frameDataList : list (list Byte.byte))
    (timestamps : list Qc) (cameraIds : list Z) : Prop :=
  (length frameDataList <= length cameraIds)%nat /\
  forall i data, frameDataList !! i = Some data ->
    Mat_empty (imdecode data IMREAD_COLOR) = false ->
    (i < length timestamps)%nat /\ 0 <= idOf cameraIds i < cameraCount s.

(** *** The public interface

    The public member functions with their arguments; [call] runs one and
    drops its return value. *)
Inductive Call : Type :=
  | CallInitialize (width height numCameras : Z)
  | CallPerformAutomaticCalibration
  | CallPerformStereoCalibration (cam1Idx cam2Idx : Z)
  | CallPerformBundleAdjustment
  | CallProcessMultiFrame (frameDataList : list (list Byte.byte))
      (timestamps : list Qc) (cameraIds : list Z)
  | CallGenerateStereoDepthMap
  | CallDetectAndMatchFeatures
  | CallPerform3DTriangulation
  | CallCalculatePreciseMeasurements.

Definition call (c : Call) : M unit :=
  match c with
  | CallInitialize width height numCameras =>
      _ ← initialize width height numCameras; mret tt
  | CallPerformAutomaticCalibration => _ ← performAutomaticCalibration; mret tt
  | CallPerformStereoCalibration cam1Idx cam2Idx =>
      _ ← performStereoCalibration cam1Idx cam2Idx; mret tt
  | CallPerformBundleAdjustment => performBundleAdjustment
  | CallProcessMultiFrame frameDataList timestamps cameraIds =>
      processMultiFrame frameDataList timestamps cameraIds
  | CallGenerateStereoDepthMap => generateStereoDepthMap
  | CallDetectAndMatchFeatures => detectAndMatchFeatures
  | CallPerform3DTriangulation => perform3DTriangulation
  | CallCalculatePreciseMeasurements => calculatePreciseMeasurements
  end.

(** The [int] arguments of a call are 32-bit integers. *)
Definition is_int (z : Z) : Prop := - 2 ^ 31 <= z < 2 ^ 31.

Definition int_args (c : Call) : Prop :=
  match c with
  | CallInitialize width height numCameras =>
      is_int width /\ is_int height /\ is_int numCameras
  | CallPerformStereoCalibration cam1Idx cam2Idx => is_int cam1Idx /\ is_int cam2Idx
  | _ => True
  end.

End WithOpenCV.

(** ** Well-formed processors

    [initialize] sizes every per-camera vector to [cameraCount]; the
    count is a C [int]. *)
Record wf (s : Processor) : Prop := mkWf {
  wf_count : 0 <= cameraCount s < 2 ^ 31;
  wf_cameraMatrices : length (cameraMatrices s) = Z.to_nat (cameraCount s);
  wf_distortion : length (distortionCoefficients s) = Z.to_nat (cameraCount s);
  wf_rotation : length (rotationMatrices s) = Z.to_nat (cameraCount s);
  wf_translation : length (translationVectors s) = Z.to_nat (cameraCount s);
  wf_rectify1 : length (rectifyMaps1 s) = Z.to_nat (cameraCount s);
  wf_rectify2 : length (rectifyMaps2 s) = Z.to_nat (cameraCount s);
  wf_processed : length (processedFrames s) = Z.to_nat (cameraCount s);
  wf_imagePoints : length (imagePointsPerCamera s) = Z.to_nat (cameraCount s)
}.

(** The processor right after construction: [cameraCount(0)], empty
    containers, the constructor's SIFT settings. *)
Definition fresh : Processor :=
  mkProcessor 0 (mkSize 0 0) [] [] [] [] [] [] Mat_new ∅ ∅ [] Mat_new Mat_new
    (mkSift 0 3 (Q2Qc (4 # 100)) (qz 10) (Q2Qc (16 # 10))) [] [].

(** A processor no calibration has ever written to: no calibration
    points are stored, and every intrinsic matrix, distortion vector, pose
    and rectification map is a default-constructed, empty [Mat]. *)
Record uncalibrated (s : Processor) : Prop := mkUncalibrated {
  unc_wf : wf s;
  unc_imagePoints : Forall (fun pts => pts = []) (imagePointsPerCamera s);
  unc_cameraMatrices : Forall (fun m => m = Mat_new) (cameraMatrices s);
  unc_distortion : Forall (fun m => m = Mat_new) (distortionCoefficients s);
  unc_rotation : Forall (fun m => m = Mat_new) (rotationMatrices s);
  unc_translation : Forall (fun m => m = Mat_new) (translationVectors s);
  unc_rectify1 : Forall (fun m => m = Mat_new) (rectifyMaps1 s);
  unc_rectify2 : Forall (fun m => m = Mat_new) (rectifyMaps2 s);
  unc_Q : Q s = Mat_new
}.

(** The processors a client of the class can obtain: the constructed one,
    and the one any returning public call leaves behind. *)
Inductive reachable `{cv : OpenCV} : Processor -> Prop :=
  | reachable_fresh : reachable fresh
  | reachable_call (s : Processor) (c : Call) (s' : Processor) (log : list Event) :
      reachable s -> int_args c -> call c s = Some (tt, s', log) -> reachable s'.

(** ** The JNI bridge

    The three exported functions share the static pointer [processor]:
    [None] is [nullptr].  Java arrays are lists; the copying loop of
    [nativeProcessMultiFrame] reads the first [frameCount] entries of the
    timestamp and camera-id arrays through raw pointers, which is
    undefined behaviour past the end of an array. *)
Definition Bridge : Type := option Processor.

Definition bridge_result {A} (r : option (A * Processor * list Event))
    : option (Bridge * list Event) :=
  match r with
  | Some (_, p, log) => Some (Some p, log)
  | None => None
  end.

Definition nativeInitializeProcessor (width height cameraCount : Z)
    (b : Bridge) : option (Bridge * list Event) :=
  let p := match b with None => fresh | Some p => p end in
  bridge_result (initialize width height cameraCount p).

(** [timestampsList[i] = timestampArray[i]] for [i < frameCount]. *)
Definition copyArray {A} (array : list A) (frameCount : nat) : option (list A) :=
  mapM (fun i => array !! i) (seq 0 frameCount).

Definition nativeProcessMultiFrame `{cv : OpenCV} (frameData : list (list Byte.byte))
    (timestamps : list Qc) (cameraIds : list Z) (b : Bridge)
    : option (Bridge * list Event) :=
  match b with
  | None => Some (None, [])
  | Some p =>
      let frameCount := length frameData in
      timestampsList ← copyArray timestamps frameCount;
      cameraIdsList ← copyArray cameraIds frameCount;
      bridge_result (processMultiFrame frameData timestampsList cameraIdsList p)
  end.

Definition nativeCleanup (b : Bridge) : option (Bridge * list Event) :=
  Some (None, []).

(** One call through the bridge. *)
Inductive BridgeCall : Type :=
  | NativeInitializeProcessor (width height cameraCount : Z)
  | NativeProcessMultiFrame (frameData : list (list Byte.byte))
      (timestamps : list Qc) (cameraIds : list Z)
  | NativeCleanup.

Definition bridge_call `{cv : OpenCV} (c : BridgeCall) (b : Bridge)
    : option (Bridge * list Event) :=
  match c with
  | NativeInitializeProcessor width height cameraCount =>
      nativeInitializeProcessor width height cameraCount b
  | NativeProcessMultiFrame frameData timestamps cameraIds =>
      nativeProcessMultiFrame frameData timestamps cameraIds b
  | NativeCleanup => nativeCleanup b
  end.

Definition jint_args (c : BridgeCall) : Prop :=
  match c with
  | NativeInitializeProcessor width height cameraCount =>
      is_int width /\ is_int height /\ is_int cameraCount
  | _ => True
  end.

(** The values of [processor] the Java side can bring about. *)
Inductive bridge_reachable `{cv : OpenCV} : Bridge -> Prop :=
  | bridge_start : bridge_reachable None
  | bridge_step (b : Bridge) (c : BridgeCall) (b' : Bridge) (log : list Event) :
      bridge_reachable b -> jint_args c -> bridge_call c b = Some (b', log) ->
      bridge_reachable b'.

(** A stand-in for OpenCV used to run the model on concrete inputs: an
    empty byte string does not decode, every other one decodes to a
    one-pixel image; the solvers return fixed matrices; [sqrt_d] is exact
    on squares of rationals. *)
Definition stub_sqrt (x : Qc) : Qc :=
  Q2Qc (Z.sqrt (Qnum x) # Pos.sqrt (Qden x)).

Definition stub_pixel (n : Z) : Mat := mkMat 1 1 [[qz n; qz n; qz n]].

#[program] Definition cv_stub : OpenCV := {|
  imdecode data _ :=
    match data with [] => Mat_new | _ :: _ => stub_pixel (Z.of_nat (length data)) end;
  remap src _ _ := src;
  cvtColor_BGR2GRAY src := src;
  sgbm_compute _ _ _ := mkMat 1 1 [[qz 16]];
  reprojectImageTo3D _ _ _ := mkMat 1 1 [[qz 40; qz 30; qz 1000]];
  bilateralFilter src _ _ _ := src;
  sift_detectAndCompute _ _ := ([], Mat_new);
  bf_match _ _ := [];
  hconcat a _ := a;
  mat_mul a _ := a;
  triangulatePoints _ _ p1 _ :=
    mkMat 4 (Z.of_nat (length p1)) (replicate (4 * length p1) [1%Qc]);
  projectPoints pts _ _ _ _ := (fun p => mkPoint2f (p3x p) (p3y p)) <$> pts;
  sqrt_d := stub_sqrt;
  calibrateCamera _ _ _ _ _ flags := mkCalib 0%Qc (stub_pixel flags) (stub_pixel 0);
  stereoCalibrate _ _ _ _ _ _ _ _ _ _ :=
    mkStereo 0%Qc (stub_pixel 1) (stub_pixel 2) (stub_pixel 3) (stub_pixel 4);
  stereoRectify _ _ _ _ _ _ _ _ _ _ :=
    mkRectify (stub_pixel 5) (stub_pixel 6) (stub_pixel 7) (stub_pixel 8)
      (stub_pixel 9);
  initUndistortRectifyMap _ _ _ _ _ _ := (stub_pixel 10, stub_pixel 11)
|}.
Next Obligation. intros. apply length_fmap. Qed.
Next Obligation.
  intros ? ? pts1 ?. simpl. rewrite length_replicate.
  repeat split. apply Forall_forall. intros px Hpx.
  by apply elem_of_replicate in Hpx as [-> _].
Qed.

(** Output already produced, put in front of what follows (used to
    state how a computation continues). *)
Definition prefix {A} (l : list Event) (r : option (A * Processor * list Event))
    : option (A * Processor * list Event) :=
  match r with
  | Some (a, s, l') => Some (a, s, l ++ l')
  | None => None
  end.

(** ** Concrete rigs and batches *)

(** [n] image points on the diagonal, and [n] copies of one image point. *)
Definition diagonalPoints (n : nat) : list Point2f :=
  (fun i => mkPoint2f (qz (Z.of_nat i)) (qz (Z.of_nat i))) <$> seq 0 n.

Definition coincidentPoints (n : nat) : list Point2f :=
  replicate n (mkPoint2f (qz 320) (qz 240)).

(** An initialised rig of [length points] cameras (what
    [initialize(640, 480, n)] builds) holding the given image points. *)
Definition rig (points : list (list Point2f)) : Processor :=
  let n := length points in
  mkProcessor (Z.of_nat n) (mkSize 640 480)
    (replicate n Mat_new) (replicate n Mat_new) (replicate n Mat_new)
    (replicate n Mat_new) (replicate n Mat_new) (replicate n Mat_new)
    Mat_new ∅ ∅ (replicate n Mat_new) Mat_new Mat_new
    (mkSift 0 4 (Q2Qc (3 # 100)) (qz 10) (Q2Qc (16 # 10))) [] points.

(** Camera 0 with 10 stored points, camera 1 with 3. *)
Definition rig_10_3 : Processor := rig [diagonalPoints 10; diagonalPoints 3].

(** Two cameras with nothing stored, as [initialize] leaves them. *)
Definition rig_empty : Processor := rig [[]; []].

(** Two cameras that each saw the same image point ten times. *)
Definition rig_degenerate : Processor :=
  rig [coincidentPoints 10; coincidentPoints 10].


(** A rig whose stored disparity map has one valid pixel (disparity
    16) and one invalid pixel (disparity -16), with the depth map
    [reprojectImageTo3D] gives for them: the invalid pixel sits at the
    far plane. *)
Definition rig_depth : Processor :=
  set_depthMap
    (mkMat 1 2 [[qz 40; qz 30; qz 1000]; [qz (-80); qz (-60); qz 10000]])
    (set_disparityMap (mkMat 1 2 [[qz 16]; [qz (-16)]]) rig_empty).








(** The two-camera rig holding one decoded frame per camera. *)
Definition rig_two_frames : Processor :=
  set_currentFrames (<[0 := stub_pixel 1]> (<[1 := stub_pixel 2]> ∅)) rig_empty.

(** Projections of an outcome. *)
Definition outcome_value {A} (r : option (A * Processor * list Event)) : option A :=
  match r with Some (a, _, _) => Some a | None => None end.

Definition outcome_state {A} (r : option (A * Processor * list Event))
    : option Processor :=
  match r with Some (_, s, _) => Some s | None => None end.






(** ** Reasoning about [M] *)

Lemma bind_Some {A B} (m : M A) (f : A -> M B) s a s1 l1 b s2 l2 :
  m s = Some (a, s1, l1) ->
  f a s1 = Some (b, s2, l2) ->
  (m ≫= f) s = Some (b, s2, l1 ++ l2).
Proof.
  intros Hm Hf. unfold mbind, M_bind, bind. rewrite Hm, Hf. reflexivity.
Qed.

Lemma prefix_Some {A} l (a : A) s l' :
  prefix l (Some (a, s, l')) = Some (a, s, l ++ l').
Proof. reflexivity. Qed.

Lemma prefix_nil {A} (r : option (A * Processor * list Event)) : prefix [] r = r.
Proof. by destruct r as [[[??]?]|]. Qed.

Lemma bind_run {A B} (m : M A) (f : A -> M B) s a s1 l1 :
  m s = Some (a, s1, l1) -> (m ≫= f) s = prefix l1 (f a s1).
Proof. intros Hm. unfold mbind, M_bind, bind. by rewrite Hm. Qed.

Lemma bind_run_triple {A B} (m : M A) (f : A -> M B) s r :
  m s = Some r -> (m ≫= f) s = prefix r.2 (f r.1.1 r.1.2).
Proof. destruct r as [[a s1] l1]. apply bind_run. Qed.

Lemma bind_get {B} (f : Processor -> M B) s : (get ≫= f) s = f s s.
Proof. rewrite (bind_run get f s s s []) by done. apply prefix_nil. Qed.

Lemma bind_emit {B} (e : Event) (f : unit -> M B) s :
  (emit e ≫= f) s = prefix [e] (f tt s).
Proof. by apply bind_run. Qed.

Lemma bind_modify {B} (g : Processor -> Processor) (f : unit -> M B) s :
  (modify g ≫= f) s = f tt (g s).
Proof. rewrite (bind_run (modify g) f s tt (g s) []) by done. apply prefix_nil. Qed.

Lemma bind_ret {A B} (a : A) (f : A -> M B) s : (mret a ≫= f) s = f a s.
Proof. rewrite (bind_run (mret a) f s a s []) by done. apply prefix_nil. Qed.

Lemma bind_assoc {A B C} (m : M A) (f : A -> M B) (g : B -> M C) s :
  ((m ≫= f) ≫= g) s = (m ≫= fun a => f a ≫= g) s.
Proof.
  unfold mbind, M_bind, bind.
  destruct (m s) as [[[a s1] l1]|]; [|done].
  destruct (f a s1) as [[[b s2] l2]|]; [|done].
  destruct (g b s2) as [[[c s3] l3]|]; [|done].
  by rewrite app_assoc.
Qed.

Ltac mrun :=
  repeat (first [ rewrite bind_assoc | rewrite bind_get | rewrite bind_emit
                | rewrite bind_modify | rewrite bind_ret ]; cbv beta).

Lemma vec_get_Some {A} (v : list A) (i : Z) (a : A) s :
  0 <= i -> v !! Z.to_nat i = Some a -> vec_get v i s = Some (a, s, []).
Proof.
  intros Hi Hv. unfold vec_get. rewrite bool_decide_eq_true_2 by done.
  rewrite Hv. reflexivity.
Qed.

Lemma vec_set_Some {A} (v : list A) (i : Z) (a : A) s :
  0 <= i < Z.of_nat (length v) ->
  vec_set v i a s = Some (<[Z.to_nat i := a]> v, s, []).
Proof.
  intros Hi. unfold vec_set. rewrite bool_decide_eq_true_2 by done. reflexivity.
Qed.

Lemma elem_of_range (n i : Z) : i ∈ range n <-> 0 <= i < n.
Proof.
  unfold range. rewrite list_elem_of_fmap. split.
  - intros (k & -> & Hk). apply elem_of_seq in Hk. lia.
  - intros Hi. exists (Z.to_nat i). split; [lia|]. apply elem_of_seq. lia.
Qed.

Section Properties.

Context `{cv : OpenCV}.

(** *** Triangulation never gets past its guards *)

Lemma getCorrespondingPoints_empty (s : Processor) :
  getCorrespondingPoints [] [] s = Some (([], []), s, []).
Proof. reflexivity. Qed.

Lemma perform3DTriangulation_run (s : Processor) :
  perform3DTriangulation s =
    Some (tt, s,
          [EvTriangulationStart;
           if bool_decide (size (currentFrames s) < 2)%nat
           then EvTriangulationNeedsTwoCameras
           else EvInsufficientCorrespondences]).
Proof.
  unfold perform3DTriangulation. mrun. case_bool_decide; [reflexivity|].
  unfold getCorrespondingPoints. mrun. reflexivity.
Qed.

(** C9: for every processor state, [perform3DTriangulation] leaves the
    state as it is and produces no 3D point.  [getCorrespondingPoints]
    returns both point lists empty, so whenever at least two frames are
    present the fewer-than-8-correspondences guard fires; the function
    prints its start line and one of the two warnings, and never reaches
    the triangulation, its validation or the storing of points. *)
Theorem perform3DTriangulation_produces_no_points (s : Processor) :
  getCorrespondingPoints [] [] s = Some (([], []), s, []) /\
  perform3DTriangulation s =
    Some (tt, s,
          [EvTriangulationStart;
           if bool_decide (size (currentFrames s) < 2)%nat
           then EvTriangulationNeedsTwoCameras
           else EvInsufficientCorrespondences]) /\
  (forall r st log, perform3DTriangulation s = Some (r, st, log) ->
     forall n, (EvTriangulated n ∉ log) /\ (EvStoring3DPoints n ∉ log) /\
               (EvValidatingTriangulation ∉ log)).
Proof.
  assert (Hrun : perform3DTriangulation s =
    Some (tt, s,
          [EvTriangulationStart;
           if bool_decide (size (currentFrames s) < 2)%nat
           then EvTriangulationNeedsTwoCameras
           else EvInsufficientCorrespondences])).
  { unfold perform3DTriangulation, mbind, M_bind, bind, emit, get. simpl.
    case_bool_decide; reflexivity. }
  split; [reflexivity|]. split; [exact Hrun|].
  intros r st log Hlog n. rewrite Hrun in Hlog. injection Hlog as <- <- <-.
  case_bool_decide; repeat split; intros Hin;
    repeat (apply elem_of_cons in Hin as [Hin|Hin]; [discriminate|]);
    by apply elem_of_nil in Hin.
Qed.

(** *** Bundle adjustment *)

Lemma totalPointsLoop_run (s : Processor) (cams : list Z) (acc : Z) :
  (forall c, c ∈ cams -> 0 <= c < Z.of_nat (length (imagePointsPerCamera s))) ->
  exists total, totalPointsLoop cams acc s = Some (total, s, []).
Proof.
  revert acc. induction cams as [|c cams IH]; intros acc Hc; simpl.
  - eexists. reflexivity.
  - assert (Hin : 0 <= c < Z.of_nat (length (imagePointsPerCamera s)))
      by (apply Hc; left).
    destruct (lookup_lt_is_Some_2 (imagePointsPerCamera s) (Z.to_nat c))
      as [pts Hpts]; [lia|].
    destruct (IH (acc + Z.of_nat (length pts))) as [total Ht].
    { intros c' Hc'. apply Hc. by right. }
    exists total. unfold mbind, M_bind, bind, get.
    rewrite (vec_get_Some _ _ pts) by (done || lia). rewrite Ht. reflexivity.
Qed.

Lemma performBundleAdjustment_run (s : Processor) :
  wf s ->
  performBundleAdjustment s =
    Some (tt, s, [EvBundleAdjustmentStart; EvBundleAdjustmentDone]).
Proof.
  intros Hwf. unfold performBundleAdjustment, mbind, M_bind, bind, emit, get.
  destruct (totalPointsLoop_run s (range (cameraCount s)) 0) as [total Ht].
  { intros c Hc. apply elem_of_range in Hc.
    rewrite (wf_imagePoints s Hwf). lia. }
  rewrite Ht. reflexivity.
Qed.

Lemma residualsOfCamera_observed (cam : Z) (params : list Qc) (pts : list Point2f) :
  residualsOfCamera cam params pts = p ← pts; [p2x p; p2y p].
Proof.
  unfold residualsOfCamera, calculateReprojectedPoint. simpl.
  generalize Z.of_nat as g. induction pts as [|p pts IH]; intros g.
  - reflexivity.
  - simpl. f_equal; [unfold Qcminus; ring|].
    f_equal; [unfold Qcminus; ring|]. apply (IH (g ∘ S)).
Qed.

Lemma residualsLoop_run (s : Processor) (cams : list Z) (params : list Qc)
    (acc : list Qc) :
  (forall c, c ∈ cams -> 0 <= c < Z.of_nat (length (imagePointsPerCamera s))) ->
  residualsLoop cams params acc s =
    Some (acc ++ (c ← cams;
                  p ← default [] (imagePointsPerCamera s !! Z.to_nat c);
                  [p2x p; p2y p]), s, []).
Proof.
  revert acc. induction cams as [|c cams IH]; intros acc Hc; simpl.
  - by rewrite app_nil_r.
  - assert (Hin : 0 <= c < Z.of_nat (length (imagePointsPerCamera s)))
      by (apply Hc; left).
    destruct (lookup_lt_is_Some_2 (imagePointsPerCamera s) (Z.to_nat c))
      as [pts Hpts]; [lia|].
    unfold mbind at 1 2, M_bind, bind, get.
    rewrite (vec_get_Some _ _ pts) by (done || lia).
    rewrite IH by (intros c' Hc'; apply Hc; by right).
    rewrite Hpts, residualsOfCamera_observed. simpl.
    by rewrite <- app_assoc.
Qed.

Lemma readParams_run (params : list Qc) (paramIdx count : nat) (s : Processor) :
  (paramIdx + count <= length params)%nat ->
  readParams params paramIdx count s = Some ((paramIdx + count)%nat, s, []).
Proof.
  revert paramIdx. induction count as [|count IH]; intros paramIdx Hlen; simpl.
  - by rewrite Nat.add_0_r.
  - destruct (lookup_lt_is_Some_2 params paramIdx) as [x Hx]; [lia|].
    unfold param_get. rewrite Hx, bind_ret, IH by lia. do 3 f_equal. lia.
Qed.

(** [residualFunction] consumes 4 + 5 + 6 = 15 parameters per camera. *)
Lemma residualParamsLoop_run (cams : list Z) (params : list Qc) (paramIdx : nat)
    (s : Processor) :
  (paramIdx + 15 * length cams <= length params)%nat ->
  residualParamsLoop cams params paramIdx s =
    Some ((paramIdx + 15 * length cams)%nat, s, []).
Proof.
  revert paramIdx. induction cams as [|c cams IH]; intros paramIdx Hlen;
    cbn [residualParamsLoop length] in *.
  - replace (paramIdx + 15 * 0)%nat with paramIdx by lia. reflexivity.
  - rewrite (bind_run _ _ _ _ _ _ (readParams_run params paramIdx 4 s ltac:(lia))),
      prefix_nil.
    rewrite (bind_run _ _ _ _ _ _
               (readParams_run params (paramIdx + 4) 5 s ltac:(lia))),
      prefix_nil.
    rewrite (bind_run _ _ _ _ _ _
               (readParams_run params (paramIdx + 4 + 5) 6 s ltac:(lia))),
      prefix_nil.
    rewrite IH by lia. do 3 f_equal. lia.
Qed.

Lemma residualFunction_run (params residuals : list Qc) (s : Processor) :
  (15 * Z.to_nat (cameraCount s) <= length params)%nat ->
  residualFunction params residuals s =
    calculateReprojectionResiduals params residuals s.
Proof.
  intros Hlen. unfold residualFunction. rewrite bind_get.
  rewrite (bind_run _ _ _ _ _ _
             (residualParamsLoop_run (range (cameraCount s)) params 0 s
                ltac:(unfold range; rewrite length_fmap, length_seq; lia))).
  apply prefix_nil.
Qed.

(** *** Calibration *)

Lemma vec_get_default {A} (d : A) (v : list A) (i : Z) s :
  0 <= i < Z.of_nat (length v) ->
  vec_get v i s = Some (default d (v !! Z.to_nat i), s, []).
Proof.
  intros Hi.
  destruct (lookup_lt_is_Some_2 v (Z.to_nat i)) as [a Ha]; [lia|].
  rewrite Ha. apply vec_get_Some; [lia|done].
Qed.

Lemma calibrateOneCamera_run (s : Processor) (c : Z) :
  wf s -> 0 <= c < cameraCount s ->
  calibrateOneCamera c s = Some (tt, calibrateStep s c, calibrateLog s c).
Proof.
  intros Hwf Hc.
  unfold calibrateOneCamera, calibrateStep, calibrateLog, calibrationOf,
    pointsOf, matOf.
  unfold mbind at 1 2, M_bind, bind, get.
  rewrite (vec_get_default [] (imagePointsPerCamera s))
    by (rewrite (wf_imagePoints s Hwf); lia).
  case_bool_decide; [reflexivity|].
  unfold mbind, M_bind, bind, emit, modify.
  rewrite (vec_get_default Mat_new (cameraMatrices s))
    by (rewrite (wf_cameraMatrices s Hwf); lia).
  rewrite (vec_get_default Mat_new (distortionCoefficients s))
    by (rewrite (wf_distortion s Hwf); lia).
  rewrite vec_set_Some by (rewrite (wf_cameraMatrices s Hwf); lia).
  simpl. rewrite vec_set_Some by (rewrite (wf_distortion s Hwf); lia).
  simpl. rewrite length_replicate. reflexivity.
Qed.

Lemma calibrateStep_wf (s : Processor) (c : Z) : wf s -> wf (calibrateStep s c).
Proof.
  intros [].
  unfold calibrateStep. case_bool_decide; constructor; simpl;
    rewrite ?length_insert; done.
Qed.

Lemma calibrateStep_cameraCount s c :
  cameraCount (calibrateStep s c) = cameraCount s.
Proof. unfold calibrateStep. by case_bool_decide. Qed.

Lemma calibrateStep_imagePoints s c :
  imagePointsPerCamera (calibrateStep s c) = imagePointsPerCamera s.
Proof. unfold calibrateStep. by case_bool_decide. Qed.

Lemma calibrateStep_imageSize s c :
  imageSize (calibrateStep s c) = imageSize s.
Proof. unfold calibrateStep. by case_bool_decide. Qed.

Lemma calibrateStep_other s c c' :
  0 <= c -> 0 <= c' -> c <> c' ->
  cameraMatrices (calibrateStep s c) !! Z.to_nat c' =
    cameraMatrices s !! Z.to_nat c' /\
  distortionCoefficients (calibrateStep s c) !! Z.to_nat c' =
    distortionCoefficients s !! Z.to_nat c'.
Proof.
  intros Hc Hc' Hne. unfold calibrateStep. case_bool_decide; [done|]. simpl.
  rewrite !list_lookup_insert_ne by lia. done.
Qed.

Lemma calibrationOf_step s c c' :
  0 <= c -> 0 <= c' -> c <> c' ->
  calibrationOf (calibrateStep s c) c' = calibrationOf s c'.
Proof.
  intros Hc Hc' Hne. unfold calibrationOf, pointsOf, matOf.
  destruct (calibrateStep_other s c c' Hc Hc' Hne) as [-> ->].
  by rewrite calibrateStep_imagePoints, calibrateStep_imageSize.
Qed.

Lemma calibrateLog_step s c c' :
  0 <= c -> 0 <= c' -> c <> c' ->
  calibrateLog (calibrateStep s c) c' = calibrateLog s c'.
Proof.
  intros Hc Hc' Hne. unfold calibrateLog.
  rewrite calibrationOf_step by done.
  unfold pointsOf. by rewrite calibrateStep_imagePoints.
Qed.

Lemma list_bind_ext_in {A B} (f g : A -> list B) (l : list A) :
  (forall x, x ∈ l -> f x = g x) -> l ≫= f = l ≫= g.
Proof.
  induction l as [|x l IH]; intros Hfg; [done|]. simpl.
  rewrite (Hfg x) by left. f_equal. apply IH. intros y Hy. apply Hfg. by right.
Qed.

(** The whole loop: every camera index is visited once, so each
    iteration sees for its own camera the profile of the initial state. *)
Lemma calibrationLoop_run (cams : list Z) (s : Processor) :
  wf s -> NoDup cams -> (forall c, c ∈ cams -> 0 <= c < cameraCount s) ->
  for_each cams calibrateOneCamera s =
    Some (tt, foldl calibrateStep s cams, c ← cams; calibrateLog s c).
Proof.
  revert s. induction cams as [|c cams IH]; intros s Hwf Hnd Hin; [done|].
  apply NoDup_cons in Hnd as [Hc Hnd].
  assert (Hc0 : 0 <= c < cameraCount s) by (apply Hin; left).
  simpl. eapply bind_Some; [by apply calibrateOneCamera_run|].
  rewrite IH.
  - do 2 f_equal. apply list_bind_ext_in. intros c' Hc'.
    assert (0 <= c' < cameraCount s) by (apply Hin; by right).
    apply calibrateLog_step; [lia|lia|]. intros ->. done.
  - by apply calibrateStep_wf.
  - done.
  - intros c' Hc'. rewrite calibrateStep_cameraCount. apply Hin. by right.
Qed.

Lemma calibrationLoop_wf (cams : list Z) (s : Processor) :
  wf s -> wf (foldl calibrateStep s cams).
Proof.
  revert s. induction cams as [|c cams IH]; intros s Hwf; [done|].
  simpl. apply IH. by apply calibrateStep_wf.
Qed.

(** The loop writes [cameraMatrices] and [distortionCoefficients] only. *)
Lemma calibrationLoop_frame (cams : list Z) (s : Processor) :
  let s' := foldl calibrateStep s cams in
  cameraCount s' = cameraCount s /\ imageSize s' = imageSize s /\
  imagePointsPerCamera s' = imagePointsPerCamera s /\
  rotationMatrices s' = rotationMatrices s /\
  translationVectors s' = translationVectors s /\
  rectifyMaps1 s' = rectifyMaps1 s /\ rectifyMaps2 s' = rectifyMaps2 s /\
  currentFrames s' = currentFrames s /\ depthMap s' = depthMap s.
Proof.
  revert s. induction cams as [|c cams IH]; intros s; [done|].
  simpl. destruct (IH (calibrateStep s c)) as (-> & -> & -> & -> & -> & -> & -> & -> & ->).
  unfold calibrateStep. by case_bool_decide.
Qed.

(** *** Stereo calibration *)

Lemma bind_vec_get {A B} (d : A) (v : list A) (i : Z) (f : A -> M B) s :
  0 <= i < Z.of_nat (length v) ->
  (vec_get v i ≫= f) s = f (default d (v !! Z.to_nat i)) s.
Proof.
  intros Hi. rewrite (bind_run _ _ _ _ _ _ (vec_get_default d v i s Hi)).
  apply prefix_nil.
Qed.

Lemma bind_vec_set {A B} (v : list A) (i : Z) (a : A) (f : list A -> M B) s :
  0 <= i < Z.of_nat (length v) ->
  (vec_set v i a ≫= f) s = f (<[Z.to_nat i := a]> v) s.
Proof.
  intros Hi. rewrite (bind_run _ _ _ _ _ _ (vec_set_Some v i a s Hi)).
  apply prefix_nil.
Qed.

Lemma performStereoCalibration_run (s : Processor) (c1 c2 : Z) :
  wf s -> 0 <= c1 < cameraCount s -> 0 <= c2 < cameraCount s ->
  performStereoCalibration c1 c2 s = Some (stereoOutcome s c1 c2).
Proof.
  intros Hwf H1 H2.
  assert (Hip := wf_imagePoints s Hwf). assert (Hcm := wf_cameraMatrices s Hwf).
  assert (Hdc := wf_distortion s Hwf). assert (Hro := wf_rotation s Hwf).
  assert (Htr := wf_translation s Hwf). assert (Hr1 := wf_rectify1 s Hwf).
  assert (Hr2 := wf_rectify2 s Hwf).
  unfold performStereoCalibration, stereoOutcome, stereoMissing, stereoStep,
    rectifyOf, stereoOf, pointsOf, matOf.
  mrun. rewrite (bind_vec_get []) by lia. cbv beta.
  case_bool_decide as E1; simpl; mrun; [reflexivity|].
  rewrite (bind_vec_get []) by lia. mrun.
  case_bool_decide as E2; simpl; mrun; [reflexivity|].
  rewrite (bind_vec_get []) by lia. cbv beta.
  rewrite !(bind_vec_get Mat_new) by lia. cbv beta. mrun.
  rewrite bind_vec_set by lia. mrun.
  rewrite bind_vec_set by lia. mrun.
  rewrite !bind_vec_set by (rewrite ?length_insert; lia). mrun.
  reflexivity.
Qed.

Lemma stereoStep_wf (s : Processor) (c1 c2 : Z) : wf s -> wf (stereoStep s c1 c2).
Proof.
  intros []. constructor; simpl; rewrite ?length_insert; done.
Qed.

Lemma stereoOutcome_wf (s : Processor) (c1 c2 : Z) :
  wf s -> wf (stereoOutcome s c1 c2).1.2.
Proof.
  intros Hwf. unfold stereoOutcome. destruct (stereoMissing s c1 c2); simpl;
    [done|by apply stereoStep_wf].
Qed.

(** Stereo calibration leaves the intrinsics and the stored points alone. *)
Lemma stereoOutcome_frame (s : Processor) (c1 c2 : Z) :
  let s' := (stereoOutcome s c1 c2).1.2 in
  cameraCount s' = cameraCount s /\
  cameraMatrices s' = cameraMatrices s /\
  distortionCoefficients s' = distortionCoefficients s /\
  imagePointsPerCamera s' = imagePointsPerCamera s.
Proof. unfold stereoOutcome. by destruct (stereoMissing s c1 c2). Qed.

Lemma NoDup_range (n : Z) : NoDup (range n).
Proof.
  unfold range. apply NoDup_fmap_2; [|apply NoDup_seq].
  intros x y. lia.
Qed.

Lemma performAutomaticCalibration_run (s : Processor) :
  wf s -> performAutomaticCalibration s = Some (calibrationOutcome s).
Proof.
  intros Hwf. unfold performAutomaticCalibration, calibrationOutcome.
  mrun. case_bool_decide as Hn; mrun; [reflexivity|].
  set (s1 := foldl calibrateStep s (range (cameraCount s))).
  assert (Hwf1 : wf s1) by by apply calibrationLoop_wf.
  assert (Hc1 : cameraCount s1 = cameraCount s)
    by apply (calibrationLoop_frame (range (cameraCount s)) s).
  erewrite bind_run; cycle 1.
  { apply calibrationLoop_run; [done|apply NoDup_range|].
    intros c Hc. by apply elem_of_range in Hc. }
  fold s1. rewrite bool_decide_eq_true_2 by lia. mrun.
  rewrite (bind_run_triple _ _ _ _
             (performStereoCalibration_run s1 0 1 Hwf1 ltac:(lia) ltac:(lia))).
  destruct (stereoOutcome s1 0 1) as [[b s2] l2] eqn:Est. simpl. mrun.
  assert (Hwf2 : wf s2).
  { pose proof (stereoOutcome_wf s1 0 1 Hwf1) as H. by rewrite Est in H. }
  erewrite bind_run; cycle 1.
  { by apply performBundleAdjustment_run. }
  reflexivity.
Qed.

Lemma elem_of_calibrateLogs (s : Processor) (n : Z) (e : Event) :
  e ∈ (c ← range n; calibrateLog s c) <->
  exists c, 0 <= c < n /\ e ∈ calibrateLog s c.
Proof.
  rewrite list_elem_of_bind. split.
  - intros (c & He & Hc). apply elem_of_range in Hc. eauto.
  - intros (c & Hc & He). exists c. by rewrite elem_of_range.
Qed.

(** C10: on every well-formed processor [performAutomaticCalibration]
    returns, and its result is [false] exactly when fewer than two
    cameras are configured and [true] exactly when at least two are.  With
    at least two cameras it is [true] even when every camera is skipped
    for having fewer than 10 stored points and the stereo calibration
    fails for lack of points: the log then holds the skip line of every
    camera and the stereo error, no camera is calibrated, the intrinsics
    are unchanged, and the result is still [true]. *)
Theorem performAutomaticCalibration_result (s : Processor) :
  wf s ->
  exists b s' log,
    performAutomaticCalibration s = Some (b, s', log) /\
    (b = false <-> cameraCount s < 2) /\
    (b = true <-> 2 <= cameraCount s) /\
    (2 <= cameraCount s ->
     (forall c, 0 <= c < cameraCount s -> (length (pointsOf s c) < 10)%nat) ->
     pointsOf s 0 = [] ->
     b = true /\
     (forall c, 0 <= c < cameraCount s ->
        EvInsufficientCalibrationPoints c ∈ log) /\
     (forall c rms K d, EvCameraCalibrated c rms K d ∉ log) /\
     EvStereoMissingPoints ∈ log /\
     cameraMatrices s' = cameraMatrices s /\
     distortionCoefficients s' = distortionCoefficients s /\
     rotationMatrices s' = rotationMatrices s).
Proof.
  intros Hwf. rewrite (performAutomaticCalibration_run s Hwf).
  unfold calibrationOutcome. case_bool_decide as Hn.
  - do 3 eexists. split; [reflexivity|]. repeat split; intros; (done || lia).
  - do 3 eexists. split; [reflexivity|].
    split; [split; [done|lia]|]. split; [split; [lia|done]|].
    intros _ Hfew Hno0.
    set (s1 := foldl calibrateStep s (range (cameraCount s))).
    assert (Hstep : forall cams, (forall c, c ∈ cams -> 0 <= c < cameraCount s) ->
              foldl calibrateStep s cams = s).
    { induction cams as [|c cams IH]; intros Hin; [done|]. simpl.
      unfold calibrateStep at 2.
      rewrite bool_decide_eq_true_2 by (apply Hfew, Hin; left).
      apply IH. intros c' Hc'. apply Hin. by right. }
    assert (Hs1 : s1 = s).
    { apply Hstep. intros c Hc. by apply elem_of_range in Hc. }
    rewrite Hs1. unfold stereoOutcome, stereoMissing.
    rewrite Hno0. simpl.
    split; [done|]. split; [|split; [|split; [|done]]].
    + intros c Hc. apply elem_of_cons. right. apply elem_of_app. left.
      apply elem_of_calibrateLogs. exists c. split; [done|].
      unfold calibrateLog. rewrite bool_decide_eq_true_2 by by apply Hfew.
      by left.
    + intros c rms K d Hin.
      apply elem_of_cons in Hin as [?|Hin]; [done|].
      apply elem_of_app in Hin as [Hin|Hin].
      * apply elem_of_calibrateLogs in Hin as (c' & Hc' & Hin).
        unfold calibrateLog in Hin.
        rewrite bool_decide_eq_true_2 in Hin by by apply Hfew.
        by apply list_elem_of_singleton in Hin.
      * repeat (apply elem_of_cons in Hin as [?|Hin]; [done|]).
        by apply elem_of_nil in Hin.
    + apply elem_of_cons. right. apply elem_of_app. right.
      apply elem_of_cons. right. by left.
Qed.

Lemma camera_event_in_outcome (s : Processor) (e : Event) :
  2 <= cameraCount s -> is_camera_event e ->
  e ∈ (calibrationOutcome s).2 <->
  exists c, 0 <= c < cameraCount s /\ e ∈ calibrateLog s c.
Proof.
  intros Hn He. unfold calibrationOutcome.
  rewrite bool_decide_eq_false_2 by lia. cbn [snd].
  rewrite !elem_of_app, elem_of_calibrateLogs. split; [|by auto].
  intros [Hin|[Hin|[Hin|Hin]]]; [|done| |].
  - apply list_elem_of_singleton in Hin. by subst.
  - unfold stereoOutcome in Hin.
    destruct (stereoMissing _ _ _); simpl in Hin;
      repeat (apply elem_of_cons in Hin as [->|Hin]; [done|]);
      by apply elem_of_nil in Hin.
  - repeat (apply elem_of_cons in Hin as [->|Hin]; [done|]).
    by apply elem_of_nil in Hin.
Qed.



(** *** Measurements *)

Lemma calculatePreciseMeasurements_run (s : Processor) :
  calculatePreciseMeasurements s =
    Some (tt, s,
          if Mat_empty (depthMap s)
          then [EvMeasurementsStart; EvMeasurementsDone]
          else [EvMeasurementsStart; depthStatistics (depthMap s);
                EvMeasurementsDone]).
Proof.
  unfold calculatePreciseMeasurements. mrun.
  destruct (Mat_empty (depthMap s)); simpl; mrun; reflexivity.
Qed.

(** *** Validation of a triangulation *)

Lemma get_pt_default (v : list Point2f) (i : nat) s :
  (i < length v)%nat -> get_pt v i s = Some (default origin (v !! i), s, []).
Proof.
  intros Hi. unfold get_pt.
  destruct (lookup_lt_is_Some_2 v i Hi) as [p ->]. reflexivity.
Qed.

Lemma totalErrorLoop_run (idx : list nat) (p1 r1 p2 r2 : list Point2f)
    (acc : Qc) (s : Processor) :
  (forall i, i ∈ idx ->
     (i < length p1 /\ i < length r1 /\ i < length p2 /\ i < length r2)%nat) ->
  totalErrorLoop idx p1 r1 p2 r2 acc s =
    Some ((acc + Qc_sum ((fun i => reprojErr p1 r1 i + reprojErr p2 r2 i) <$> idx))%Qc,
          s, []).
Proof.
  revert acc. induction idx as [|i idx IH]; intros acc Hidx; simpl.
  - unfold mret, M_ret, ret.
    apply (f_equal (fun x => Some (x, s, @nil Event))). ring.
  - destruct (Hidx i) as (H1 & H2 & H3 & H4); [left|].
    rewrite (bind_run _ _ _ _ _ _ (get_pt_default p1 i s H1)), prefix_nil.
    rewrite (bind_run _ _ _ _ _ _ (get_pt_default r1 i s H2)), prefix_nil.
    rewrite (bind_run _ _ _ _ _ _ (get_pt_default p2 i s H3)), prefix_nil.
    rewrite (bind_run _ _ _ _ _ _ (get_pt_default r2 i s H4)), prefix_nil.
    rewrite IH by (intros j Hj; apply Hidx; by right).
    apply (f_equal (fun x => Some (x, s, @nil Event))).
    symmetry. apply Qcplus_assoc.
Qed.

(** *** Frame processing *)

Lemma checkSynchronization_run (timestamps : list Qc) (s : Processor) :
  checkSynchronization timestamps s =
    Some (maxTimeDiffOf timestamps, s, syncLog timestamps).
Proof.
  unfold checkSynchronization, maxTimeDiffOf, syncLog.
  destruct timestamps as [|t0 [|t1 rest]]; [reflexivity..|].
  unfold maxTimeDiffOf. case_bool_decide; mrun; reflexivity.
Qed.

(** [minmax_element] finds a least and a greatest element. *)
Lemma minmax_element_spec (first : Qc) (rest : list Qc) :
  let lo := (minmax_element first rest).1 in
  let hi := (minmax_element first rest).2 in
  lo ∈ first :: rest /\ hi ∈ first :: rest /\
  forall t, t ∈ first :: rest -> (lo <= t)%Qc /\ (t <= hi)%Qc.
Proof.
  unfold minmax_element.
  assert (Hgen : forall (seen : list Qc) (acc : Qc * Qc),
    acc.1 ∈ seen -> acc.2 ∈ seen ->
    (forall t, t ∈ seen -> (acc.1 <= t)%Qc /\ (t <= acc.2)%Qc) ->
    let r := foldl minmax_step acc rest in
    r.1 ∈ seen ++ rest /\ r.2 ∈ seen ++ rest /\
    forall t, t ∈ seen ++ rest -> (r.1 <= t)%Qc /\ (t <= r.2)%Qc).
  { induction rest as [|x rest IH]; intros seen acc H1 H2 Hb.
    - simpl. rewrite app_nil_r. done.
    - simpl. specialize (IH (seen ++ [x]) (minmax_step acc x)).
      rewrite <- !app_assoc in IH. simpl in IH. apply IH; clear IH.
      + unfold minmax_step. simpl. rewrite elem_of_app.
        case_bool_decide; [right; by left|by left].
      + unfold minmax_step. simpl. rewrite elem_of_app.
        case_bool_decide; [by left|right; by left].
      + intros t Ht. unfold minmax_step. simpl.
        apply elem_of_app in Ht as [Ht|Ht].
        * destruct (Hb t Ht) as [Hlo Hhi]. split.
          -- case_bool_decide as Hx; [|done].
             apply Qclt_le_weak. by eapply Qclt_le_trans.
          -- case_bool_decide as Hx; [done|].
             apply Qcnot_lt_le in Hx. by eapply Qcle_trans.
        * apply list_elem_of_singleton in Ht as ->. split.
          -- case_bool_decide as Hx; [apply Qcle_refl|by apply Qcnot_lt_le].
          -- case_bool_decide as Hx; [by apply Qclt_le_weak|apply Qcle_refl]. }
  apply (Hgen [first] (first, first)); simpl.
  - by left.
  - by left.
  - intros t Ht. apply list_elem_of_singleton in Ht as ->.
    split; apply Qcle_refl.
Qed.

(** The warning, in terms of the timestamps themselves: it is printed
    exactly when the batch has at least two timestamps whose extremes are
    more than the tolerance apart. *)
Lemma syncLog_spec (timestamps : list Qc) :
  (exists ms, EvSyncWarning ms ∈ syncLog timestamps) <->
  (1 < length timestamps)%nat /\
  exists lo hi, lo ∈ timestamps /\ hi ∈ timestamps /\
    (forall t, t ∈ timestamps -> (lo <= t)%Qc /\ (t <= hi)%Qc) /\
    (syncTolerance < hi - lo)%Qc.
Proof.
  destruct timestamps as [|t0 [|t1 rest]].
  - simpl. split; [intros [? H]; by apply elem_of_nil in H|intros [? _]; lia].
  - simpl. split; [intros [? H]; by apply elem_of_nil in H|intros [? _]; lia].
  - destruct (minmax_element_spec t0 (t1 :: rest)) as (Hlo & Hhi & Hb).
    unfold syncLog, maxTimeDiffOf.
    set (mm := minmax_element t0 (t1 :: rest)) in *. split.
    + intros [ms Hin]. split; [simpl; lia|].
      case_bool_decide as Hd; [|by apply elem_of_nil in Hin].
      exists mm.1, mm.2. done.
    + intros (_ & lo & hi & Hlo' & Hhi' & Hb' & Hd).
      assert (E1 : lo = mm.1).
      { apply Qcle_antisym; [apply (Hb' _ Hlo)|apply (Hb _ Hlo')]. }
      assert (E2 : hi = mm.2).
      { apply Qcle_antisym; [apply (Hb _ Hhi')|apply (Hb' _ Hhi)]. }
      subst lo hi. rewrite bool_decide_eq_true_2 by done.
      eexists. by left.
Qed.

Lemma decodeOne_run timestamps cameraIds (item : nat * list Byte.byte) s :
  (item.1 < length cameraIds)%nat -> (item.1 < length timestamps)%nat ->
  decodeOne timestamps cameraIds item s =
    Some (tt, decodeStep timestamps cameraIds s item,
          decodeLog timestamps cameraIds item).
Proof.
  intros Hid Hts. unfold decodeOne, decodeStep, decodeLog, idOf, timeOf.
  destruct (Mat_empty (imdecode item.2 IMREAD_COLOR)).
  - rewrite (bind_vec_get 0) by lia. by rewrite Nat2Z.id.
  - rewrite (bind_vec_get 0) by lia. mrun.
    rewrite (bind_vec_get 0) by lia. cbv beta.
    rewrite (bind_vec_get 0%Qc) by lia. mrun.
    by rewrite Nat2Z.id.
Qed.


Lemma decodeLoop_frames timestamps cameraIds items s :
  currentFrames (foldl (decodeStep timestamps cameraIds) s items) =
    foldl (storeFrame cameraIds) (currentFrames s) items.
Proof.
  revert s. induction items as [|item items IH]; intros s; [done|].
  simpl. rewrite IH. f_equal. unfold decodeStep, storeFrame.
  by destruct (Mat_empty _).
Qed.

Lemma same_calibration_refl s : same_calibration s s.
Proof. by constructor. Qed.

Lemma same_calibration_trans s1 s2 s3 :
  same_calibration s1 s2 -> same_calibration s2 s3 -> same_calibration s1 s3.
Proof. intros [] []. constructor; congruence. Qed.

Lemma same_calibration_wf s s' : same_calibration s s' -> wf s -> wf s'.
Proof. intros [] []. constructor; congruence. Qed.

Lemma decodeLoop_same timestamps cameraIds items s :
  same_calibration s (foldl (decodeStep timestamps cameraIds) s items).
Proof.
  revert s. induction items as [|item items IH]; intros s;
    [apply same_calibration_refl|].
  simpl. eapply same_calibration_trans; [|apply IH].
  unfold decodeStep. destruct (Mat_empty _); by constructor.
Qed.

(** Lookups in the stored frames. *)
Lemma storeFrames_origin cameraIds items (m : gmap Z Mat) c f :
  foldl (storeFrame cameraIds) m items !! c = Some f ->
  m !! c = Some f \/
  exists item, item ∈ items /\ idOf cameraIds item.1 = c /\
    f = imdecode item.2 IMREAD_COLOR /\ Mat_empty f = false.
Proof.
  revert m. induction items as [|item items IH]; intros m Hl; [by left|].
  simpl in Hl. apply IH in Hl as [Hl|(item' & Hin & ?)].
  - unfold storeFrame in Hl.
    destruct (Mat_empty (imdecode item.2 IMREAD_COLOR)) eqn:E; [by left|].
    destruct (decide (idOf cameraIds item.1 = c)) as [<-|Hne].
    + rewrite lookup_insert_eq in Hl. injection Hl as <-.
      right. exists item. split; [left|done].
    + rewrite lookup_insert_ne in Hl by done. by left.
  - right. exists item'. split; [by right|done].
Qed.


(** [frames_in_order] lists exactly the entries of the map, each key once. *)
Lemma elem_of_frames_in_order (m : gmap Z Mat) (c : Z) (f : Mat) :
  (c, f) ∈ frames_in_order m <-> m !! c = Some f.
Proof.
  unfold frames_in_order. rewrite merge_sort_Permutation.
  apply elem_of_map_to_list.
Qed.

Lemma length_frames_in_order (m : gmap Z Mat) :
  length (frames_in_order m) = size m.
Proof.
  unfold frames_in_order. rewrite merge_sort_Permutation.
  apply length_map_to_list.
Qed.

Lemma NoDup_frames_in_order (m : gmap Z Mat) : NoDup (frames_in_order m).*1.
Proof.
  unfold frames_in_order. rewrite merge_sort_Permutation.
  apply NoDup_fst_map_to_list.
Qed.

(** Two stored frames have two different camera indices. *)
Lemma two_frames_two_cameras (m : gmap Z Mat) (n : Z) :
  (forall c f, m !! c = Some f -> 0 <= c < n) -> (2 <= size m)%nat -> 2 <= n.
Proof.
  intros Hr Hs. rewrite <- length_frames_in_order in Hs.
  pose proof (NoDup_frames_in_order m) as Hnd.
  destruct (frames_in_order m) as [|[c1 f1] [|[c2 f2] l]] eqn:E;
    [simpl in Hs; lia..|].
  assert (H1 : 0 <= c1 < n).
  { apply (Hr c1 f1), elem_of_frames_in_order. rewrite E. left. }
  assert (H2 : 0 <= c2 < n).
  { apply (Hr c2 f2), elem_of_frames_in_order. rewrite E. right. left. }
  simpl in Hnd. apply NoDup_cons in Hnd as [Hne _].
  assert (c1 <> c2) by (intros ->; apply Hne; left). lia.
Qed.

Lemma rectifyOne_run (s : Processor) (framePair : Z * Mat) :
  wf s -> 0 <= framePair.1 < cameraCount s ->
  rectifyOne framePair s = Some (tt, rectifyStep s framePair, []).
Proof.
  intros Hwf Hc.
  assert (H1 := wf_rectify1 s Hwf). assert (H2 := wf_rectify2 s Hwf).
  assert (Hp := wf_processed s Hwf). assert (Hn := wf_count s Hwf).
  unfold rectifyOne, rectifyStep, rectifiedFrame, matOf. mrun.
  assert (Hsz : to_size_t framePair.1 = framePair.1).
  { unfold to_size_t. apply Z.mod_small. lia. }
  rewrite Hsz. rewrite !bool_decide_eq_true_2 by lia. mrun.
  rewrite (bind_vec_get Mat_new) by lia. mrun. simpl.
  destruct (Mat_empty (default Mat_new (rectifyMaps1 s !! Z.to_nat framePair.1)));
    simpl.
  - rewrite bind_vec_set by lia. reflexivity.
  - rewrite !(bind_vec_get Mat_new) by lia. cbv beta.
    rewrite bind_vec_set by lia. reflexivity.
Qed.

Lemma rectifyStep_same s framePair : same_calibration s (rectifyStep s framePair).
Proof. constructor; try done. simpl. by rewrite length_insert. Qed.

Lemma rectifyLoop_run (frames : list (Z * Mat)) (s : Processor) :
  wf s -> (forall fp, fp ∈ frames -> 0 <= fp.1 < cameraCount s) ->
  for_each frames rectifyOne s = Some (tt, foldl rectifyStep s frames, []).
Proof.
  revert s. induction frames as [|fp frames IH]; intros s Hwf Hin; [done|].
  simpl. rewrite (bind_run _ _ _ _ _ _ (rectifyOne_run s fp Hwf (Hin fp ltac:(left)))).
  rewrite prefix_nil. apply IH.
  - eapply same_calibration_wf; [apply rectifyStep_same|done].
  - intros fp' Hfp'. rewrite (same_count _ _ (rectifyStep_same s fp)).
    apply Hin. by right.
Qed.

Lemma rectifyLoop_same frames s : same_calibration s (foldl rectifyStep s frames).
Proof.
  revert s. induction frames as [|fp frames IH]; intros s;
    [apply same_calibration_refl|].
  simpl. eapply same_calibration_trans; [apply rectifyStep_same|apply IH].
Qed.

Lemma rectifyLoop_frames frames s :
  currentFrames (foldl rectifyStep s frames) = currentFrames s /\
  depthMap (foldl rectifyStep s frames) = depthMap s /\
  disparityMap (foldl rectifyStep s frames) = disparityMap s /\
  siftDetector (foldl rectifyStep s frames) = siftDetector s.
Proof.
  revert s. induction frames as [|fp frames IH]; intros s; [done|].
  simpl. by destruct (IH (rectifyStep s fp)) as (-> & -> & -> & ->).
Qed.

Lemma rectifyLoop_untouched frames s (c : Z) :
  0 <= c -> (forall fp, fp ∈ frames -> 0 <= fp.1) -> c ∉ frames.*1 ->
  processedFrames (foldl rectifyStep s frames) !! Z.to_nat c =
    processedFrames s !! Z.to_nat c.
Proof.
  intros Hc. revert s. induction frames as [|fp frames IH]; intros s Hpos Hnin;
    [done|].
  simpl in *. apply not_elem_of_cons in Hnin as [Hne Hnin].
  rewrite IH; [|intros; apply Hpos; by right|done].
  simpl. apply list_lookup_insert_ne.
  assert (0 <= fp.1) by (apply Hpos; left). lia.
Qed.

(** Every frame in the map ends up rectified (or copied) in its slot. *)
Lemma rectifyLoop_processed frames s (fp : Z * Mat) :
  NoDup frames.*1 ->
  (forall fp', fp' ∈ frames -> 0 <= fp'.1 < Z.of_nat (length (processedFrames s))) ->
  fp ∈ frames ->
  processedFrames (foldl rectifyStep s frames) !! Z.to_nat fp.1 =
    Some (rectifiedFrame s fp).
Proof.
  revert s. induction frames as [|fp0 frames IH]; intros s Hnd Hin Hfp;
    [by apply elem_of_nil in Hfp|].
  simpl in Hnd. apply NoDup_cons in Hnd as [Hfresh Hnd].
  assert (Hpos : forall fp', fp' ∈ frames -> 0 <= fp'.1).
  { intros fp' ?. apply (Hin fp'). by right. }
  destruct (Hin fp0) as [H0 H0']; [left|].
  simpl. apply elem_of_cons in Hfp as [->|Hfp].
  - rewrite rectifyLoop_untouched by done.
    simpl. apply list_lookup_insert_eq. lia.
  - rewrite (IH (rectifyStep s fp0)); [done|done| |done].
    intros fp' Hfp'. simpl. rewrite length_insert. apply Hin. by right.
Qed.

Lemma rectifyFrames_run (s : Processor) :
  wf s -> (forall c f, currentFrames s !! c = Some f -> 0 <= c < cameraCount s) ->
  rectifyFrames s = Some (tt, rectifiedState s, []).
Proof.
  intros Hwf Hin. unfold rectifyFrames. mrun. apply rectifyLoop_run; [done|].
  intros [c f] Hfp. apply (Hin c f). by apply elem_of_frames_in_order.
Qed.

Lemma validateDisparityMap_run (s : Processor) :
  validateDisparityMap s = Some (tt, s, validationLog (disparityMap s)).
Proof.
  unfold validateDisparityMap, validationLog. mrun.
  by destruct (Mat_empty (disparityMap s)).
Qed.

Lemma generateStereoDepthMap_run (s : Processor) :
  wf s -> 2 <= cameraCount s -> (2 <= size (currentFrames s))%nat ->
  generateStereoDepthMap s =
    Some (tt, depthStep s,
          [EvDisparityStart] ++ remapCalls s ++
          [EvDisparityDone (rows (disparityOf s)) (cols (disparityOf s))] ++
          validationLog (disparityOf s)).
Proof.
  intros Hwf Hn Hs.
  assert (H1 := wf_rectify1 s Hwf). assert (H2 := wf_rectify2 s Hwf).
  unfold generateStereoDepthMap, depthStep, depthOf, disparityOf, remapCalls. mrun.
  rewrite bool_decide_eq_false_2 by lia.
  rewrite <- length_frames_in_order in Hs.
  destruct (frames_in_order (currentFrames s)) as [|[c1 f1] [|[c2 f2] l]];
    [simpl in Hs; lia..|].
  mrun. rewrite !(bind_vec_get Mat_new) by lia. cbv beta. mrun.
  rewrite !(bind_vec_get Mat_new) by lia. cbv beta. mrun.
  rewrite validateDisparityMap_run. reflexivity.
Qed.

Lemma depthStep_same s : same_calibration s (depthStep s).
Proof. by constructor. Qed.

(** [detectAndMatchFeatures] prints and changes nothing. *)
Lemma for_each_emit {A} (l : list A) (g : A -> Event) (s : Processor) :
  for_each l (fun x => emit (g x)) s = Some (tt, s, g <$> l).
Proof.
  induction l as [|x l IH]; [done|]. simpl. rewrite bind_emit, IH. reflexivity.
Qed.

(** *** The whole of [processMultiFrame] *)

Lemma elem_of_batchItems frameDataList (item : nat * list Byte.byte) :
  item ∈ batchItems frameDataList <-> frameDataList !! item.1 = Some item.2.
Proof.
  unfold batchItems. rewrite elem_of_lookup_imap. split.
  - by intros (i & d & -> & Hl).
  - intros Hl. exists item.1, item.2. by destruct item.
Qed.

Lemma storeFrames_keep cameraIds items (m : gmap Z Mat) (c : Z) :
  is_Some (m !! c) -> is_Some (foldl (storeFrame cameraIds) m items !! c).
Proof.
  revert m. induction items as [|item items IH]; intros m Hm; [done|].
  simpl. apply IH. unfold storeFrame. destruct (Mat_empty _); [done|].
  destruct (decide (idOf cameraIds item.1 = c)) as [->|Hne].
  - rewrite lookup_insert_eq. eauto.
  - by rewrite lookup_insert_ne.
Qed.


Lemma storeFrames_present cameraIds items (m : gmap Z Mat) item :
  item ∈ items -> Mat_empty (imdecode item.2 IMREAD_COLOR) = false ->
  is_Some (foldl (storeFrame cameraIds) m items !! idOf cameraIds item.1).
Proof.
  revert m. induction items as [|item0 items IH]; intros m Hin Hok;
    [by apply elem_of_nil in Hin|].
  simpl. apply elem_of_cons in Hin as [<-|Hin]; [|by apply IH].
  apply storeFrames_keep. unfold storeFrame. rewrite Hok.
  rewrite lookup_insert_eq. eauto.
Qed.




End Properties.

(** ** Further properties of the member functions *)

Section MoreProperties.

Context `{cv : OpenCV}.

(** *** Iteration over the frames *)

#[local] Instance key_le_total : Total key_le.
Proof. intros a b. unfold key_le. lia. Qed.

#[local] Instance key_le_trans : Transitive key_le.
Proof. intros a b c. unfold key_le. lia. Qed.

Lemma frames_in_order_sorted (m : gmap Z Mat) :
  StronglySorted Z.lt (frames_in_order m).*1.
Proof.
  pose proof (NoDup_frames_in_order m) as Hnd.
  assert (Hs : StronglySorted key_le (frames_in_order m))
    by (apply StronglySorted_merge_sort; apply _).
  induction (frames_in_order m) as [|fp l IH]; [constructor|].
  simpl in *. apply NoDup_cons in Hnd as [Hfresh Hnd].
  apply StronglySorted_inv in Hs as [Hs Hall].
  constructor; [by apply IH|].
  rewrite Forall_fmap. rewrite Forall_forall in Hall |- *.
  intros fp' Hin. specialize (Hall fp' Hin). unfold key_le in Hall. simpl.
  assert (fp.1 <> fp'.1).
  { intros Heq. apply Hfresh. rewrite Heq. apply list_elem_of_fmap. eauto. }
  lia.
Qed.

Lemma elem_of_frame_keys (m : gmap Z Mat) (c : Z) :
  c ∈ (frames_in_order m).*1 <-> is_Some (m !! c).
Proof.
  rewrite list_elem_of_fmap. split.
  - intros ([c' f] & -> & Hin). apply elem_of_frames_in_order in Hin. eauto.
  - intros [f Hf]. exists (c, f). split; [done|]. by apply elem_of_frames_in_order.
Qed.

(** *** Feature detection *)

Lemma detectAndMatchFeatures_outcome (s : Processor) :
  detectAndMatchFeatures s = Some (tt, s, featureLog s).
Proof.
  unfold detectAndMatchFeatures, storeMatchesForTriangulation, featureLog,
    goodMatchesOf. mrun.
  rewrite (bind_run _ _ _ _ _ _ (for_each_emit _ _ _)).
  fold (detectedFeatures s).
  destruct (detectedFeatures s) as [|d0 [|d1 l]]; [reflexivity..|].
  cbn [fmap list_fmap].
  destruct (negb (Mat_empty d0.2.2) && negb (Mat_empty d1.2.2)); mrun; reflexivity.
Qed.

(** X1: [detectAndMatchFeatures] never changes the processor: the
    matches it keeps are handed to [storeMatchesForTriangulation], which
    stores nothing.  It prints one detection line per stored frame, by
    strictly increasing camera id, and prints a match count only when at
    least two frames are stored. *)
Theorem detectAndMatchFeatures_stores_nothing (s : Processor) :
  exists log,
    detectAndMatchFeatures s = Some (tt, s, log) /\
    omap detectedCamera log = (frames_in_order (currentFrames s)).*1 /\
    StronglySorted Z.lt (omap detectedCamera log) /\
    (forall c, c ∈ omap detectedCamera log <-> is_Some (currentFrames s !! c)) /\
    ((size (currentFrames s) < 2)%nat -> forall n, EvGoodMatches n ∉ log).
Proof.
  exists (featureLog s). split; [apply detectAndMatchFeatures_outcome|].
  assert (Hids : omap detectedCamera (featureLog s) =
                 (frames_in_order (currentFrames s)).*1).
  { unfold featureLog. rewrite !omap_app. simpl.
    replace (omap detectedCamera
               match detectedFeatures s with
               | d0 :: d1 :: _ =>
                   if negb (Mat_empty d0.2.2) && negb (Mat_empty d1.2.2)
                   then [EvGoodMatches (length (goodMatchesOf d0.2.2 d1.2.2))]
                   else []
               | _ => []
               end) with (@nil Z).
    2:{ destruct (detectedFeatures s) as [|d0 [|d1 l]]; try done.
        by destruct (negb _ && negb _). }
    rewrite app_nil_r. unfold detectedFeatures.
    induction (frames_in_order (currentFrames s)) as [|fp l IH]; [done|].
    cbn. f_equal. exact IH. }
  rewrite Hids. split; [done|]. split; [apply frames_in_order_sorted|].
  split; [apply elem_of_frame_keys|].
  intros Hsz n Hin. unfold featureLog in Hin.
  rewrite <- length_frames_in_order in Hsz.
  assert (Hlen : (length (detectedFeatures s) < 2)%nat)
    by (unfold detectedFeatures; by rewrite length_fmap).
  apply elem_of_app in Hin as [Hin|Hin];
    [by apply list_elem_of_singleton in Hin|].
  apply elem_of_app in Hin as [Hin|Hin].
  - apply list_elem_of_fmap in Hin as (d & Heq & _). discriminate Heq.
  - destruct (detectedFeatures s) as [|d0 [|d1 l]];
      [by apply elem_of_nil in Hin..|simpl in Hlen; lia].
Qed.

(** *** Initialisation *)

Lemma initialize_run (w h numCameras : Z) (s : Processor) :
  initialize w h numCameras s =
    if bool_decide (numCameras < 0) then None
    else Some (true, initializedState w h numCameras s,
               [EvInitialized numCameras w h]).
Proof. unfold initialize. case_bool_decide; reflexivity. Qed.

Lemma initializedState_wf (w h numCameras : Z) (s : Processor) :
  0 <= numCameras < 2 ^ 31 -> wf (initializedState w h numCameras s).
Proof. intros Hn. constructor; simpl; rewrite ?length_resize; done. Qed.

Lemma lookup_resize_default {A} (d : A) (n i : nat) (l : list A) :
  (i < n)%nat -> default d (resize n d l !! i) = default d (l !! i).
Proof.
  intros Hi. destruct (decide (i < length l)%nat).
  - by rewrite lookup_resize.
  - rewrite lookup_resize_new by lia. by rewrite lookup_ge_None_2 by lia.
Qed.

(** X2: for a camera count that is a non-negative [int], [initialize]
    always succeeds with [true], sets the count and the image size, and
    leaves every per-camera vector with exactly one slot per camera, the
    invariant every other member function relies on when it indexes those
    vectors; this holds whatever state the processor was in. *)
Theorem initialize_sizes_every_vector (w h numCameras : Z) (s : Processor) :
  0 <= numCameras < 2 ^ 31 ->
  exists s',
    initialize w h numCameras s = Some (true, s', [EvInitialized numCameras w h]) /\
    wf s' /\ cameraCount s' = numCameras /\ imageSize s' = mkSize w h /\
    length (cameraMatrices s') = Z.to_nat numCameras /\
    length (rectifyMaps1 s') = Z.to_nat numCameras /\
    length (processedFrames s') = Z.to_nat numCameras /\
    length (imagePointsPerCamera s') = Z.to_nat numCameras.
Proof.
  intros Hn. exists (initializedState w h numCameras s).
  rewrite initialize_run, bool_decide_eq_false_2 by lia.
  split; [done|]. split; [by apply initializedState_wf|].
  simpl. rewrite !length_resize. done.
Qed.

(** X3: [initialize] is not a reset.  Called on a processor that was
    already in use, it keeps, for every camera index below the new count,
    the stored calibration points, intrinsics, pose and rectification maps
    that were there (new slots are empty), and it keeps the current
    frames, their timestamps, the disparity and depth maps and the matrix
    Q untouched. *)
Theorem initialize_keeps_previous_data (w h numCameras : Z) (s : Processor) :
  0 <= numCameras < 2 ^ 31 ->
  exists s',
    initialize w h numCameras s = Some (true, s', [EvInitialized numCameras w h]) /\
    (forall c, 0 <= c < numCameras ->
       pointsOf s' c = pointsOf s c /\
       matOf (cameraMatrices s') c = matOf (cameraMatrices s) c /\
       matOf (distortionCoefficients s') c = matOf (distortionCoefficients s) c /\
       matOf (rotationMatrices s') c = matOf (rotationMatrices s) c /\
       matOf (translationVectors s') c = matOf (translationVectors s) c /\
       matOf (rectifyMaps1 s') c = matOf (rectifyMaps1 s) c /\
       matOf (rectifyMaps2 s') c = matOf (rectifyMaps2 s) c) /\
    currentFrames s' = currentFrames s /\
    frameTimestamps s' = frameTimestamps s /\
    disparityMap s' = disparityMap s /\ depthMap s' = depthMap s /\
    Q s' = Q s.
Proof.
  intros Hn. exists (initializedState w h numCameras s).
  rewrite initialize_run, bool_decide_eq_false_2 by lia.
  split; [done|]. split; [|done].
  intros c Hc. unfold pointsOf, matOf. simpl.
  rewrite !lookup_resize_default by lia. done.
Qed.

(** *** More on calibration *)

(** X4: every call of [calibrateCamera] that [performAutomaticCalibration]
    makes is for a configured camera with at least 10 stored points, and
    passes as many object-point views as that camera has stored points
    but a single image-point view: the two view counts it hands to OpenCV
    never agree. *)
Theorem calibrateCamera_view_counts (s : Processor) :
  wf s ->
  exists b s' log,
    performAutomaticCalibration s = Some (b, s', log) /\
    forall c n m flags, EvCallCalibrateCamera c n m flags ∈ log ->
      0 <= c < cameraCount s /\ n = length (pointsOf s c) /\
      (10 <= n)%nat /\ m = 1%nat /\ n <> m.
Proof.
  intros Hwf. rewrite (performAutomaticCalibration_run s Hwf).
  destruct (calibrationOutcome s) as [[b s'] log] eqn:Eo.
  exists b, s', log. split; [done|].
  intros c n m flags Hin.
  destruct (decide (cameraCount s < 2)) as [Hlt|Hge].
  - unfold calibrationOutcome in Eo.
    rewrite bool_decide_eq_true_2 in Eo by done. injection Eo as <- <- <-.
    by apply list_elem_of_singleton in Hin.
  - pose proof (camera_event_in_outcome s (EvCallCalibrateCamera c n m flags)
                  ltac:(lia) I) as Hlog.
    rewrite Eo in Hlog. apply Hlog in Hin as (c' & Hc' & Hin).
    unfold calibrateLog in Hin. case_bool_decide as Hfew.
    + by apply list_elem_of_singleton in Hin.
    + apply elem_of_cons in Hin as [Heq|Hin];
        [|by apply list_elem_of_singleton in Hin].
      injection Heq as -> -> -> ->. repeat split; (done || lia).
Qed.

(** X5: [performStereoCalibration] touches the pose of the second
    camera only.  On a well-formed rig, whatever it returns, the
    intrinsics and distortion of every camera, the stored calibration
    points, the rotation and translation of every camera other than
    [cam2Idx], the rectification maps of every camera other than the two
    of the pair, the current and processed frames and the depth map are
    what they were, and the rig stays well formed. *)
Theorem stereo_calibration_frame (s : Processor) (c1 c2 : Z) :
  wf s -> 0 <= c1 < cameraCount s -> 0 <= c2 < cameraCount s ->
  exists b s' log,
    performStereoCalibration c1 c2 s = Some (b, s', log) /\
    wf s' /\ cameraCount s' = cameraCount s /\
    cameraMatrices s' = cameraMatrices s /\
    distortionCoefficients s' = distortionCoefficients s /\
    imagePointsPerCamera s' = imagePointsPerCamera s /\
    currentFrames s' = currentFrames s /\
    processedFrames s' = processedFrames s /\
    depthMap s' = depthMap s /\
    (forall i : nat, i <> Z.to_nat c2 ->
       rotationMatrices s' !! i = rotationMatrices s !! i /\
       translationVectors s' !! i = translationVectors s !! i) /\
    (forall i : nat, i <> Z.to_nat c1 -> i <> Z.to_nat c2 ->
       rectifyMaps1 s' !! i = rectifyMaps1 s !! i /\
       rectifyMaps2 s' !! i = rectifyMaps2 s !! i).
Proof.
  intros Hwf H1 H2. rewrite (performStereoCalibration_run s c1 c2 Hwf H1 H2).
  pose proof (stereoOutcome_wf s c1 c2 Hwf) as Hwf'.
  unfold stereoOutcome in *. destruct (stereoMissing s c1 c2); simpl in *.
  - do 3 eexists. split; [reflexivity|]. split; [exact Hwf'|].
    repeat split; done.
  - do 3 eexists. split; [reflexivity|]. split; [exact Hwf'|].
    simpl. repeat split; try done.
    + by rewrite list_lookup_insert_ne.
    + by rewrite list_lookup_insert_ne.
    + by rewrite !list_lookup_insert_ne.
    + by rewrite !list_lookup_insert_ne.
Qed.

(** *** The synchronisation check *)


(** *** The stages of [processMultiFrame] *)

Lemma decodeLoop_maps timestamps cameraIds items s :
  let s' := foldl (decodeStep timestamps cameraIds) s items in
  depthMap s' = depthMap s /\ disparityMap s' = disparityMap s /\
  processedFrames s' = processedFrames s.
Proof.
  revert s. induction items as [|item items IH]; intros s; [done|].
  simpl. destruct (IH (decodeStep timestamps cameraIds s item)) as (-> & -> & ->).
  unfold decodeStep. by destruct (Mat_empty _).
Qed.

Lemma rectifyLoop_timestamps frames s :
  frameTimestamps (foldl rectifyStep s frames) = frameTimestamps s.
Proof.
  revert s. induction frames as [|fp frames IH]; intros s; [done|].
  simpl. by rewrite IH.
Qed.

Lemma depthStage_run (s : Processor) :
  wf s -> (forall c f, currentFrames s !! c = Some f -> 0 <= c < cameraCount s) ->
  (if bool_decide (2 <= size (currentFrames s))%nat
   then generateStereoDepthMap else mret tt) s =
    Some (tt, depthStage s, depthStageLog s).
Proof.
  intros Hwf Hkeys. unfold depthStage, depthStageLog.
  case_bool_decide as Hsz; [|reflexivity].
  apply generateStereoDepthMap_run; [done| |done].
  by apply (two_frames_two_cameras (currentFrames s)).
Qed.


Lemma decodedState_same timestamps cameraIds frameDataList s :
  same_calibration s (decodedState timestamps cameraIds frameDataList s).
Proof.
  eapply same_calibration_trans; [|apply decodeLoop_same]. by constructor.
Qed.




Lemma frameState_frames timestamps cameraIds frameDataList s :
  let s1 := decodedState timestamps cameraIds frameDataList s in
  let s' := frameState timestamps cameraIds frameDataList s in
  currentFrames s' = currentFrames s1 /\
  frameTimestamps s' = frameTimestamps s1 /\
  same_calibration s1 s'.
Proof.
  intros s1 s'. unfold s', frameState. fold s1.
  destruct (rectifyLoop_frames (frames_in_order (currentFrames s1)) s1)
    as (Hf & _). fold (rectifiedState s1) in Hf.
  pose proof (rectifyLoop_timestamps (frames_in_order (currentFrames s1)) s1) as Ht.
  fold (rectifiedState s1) in Ht.
  pose proof (rectifyLoop_same (frames_in_order (currentFrames s1)) s1) as Hs.
  fold (rectifiedState s1) in Hs.
  unfold depthStage. case_bool_decide; simpl; [|done].
  split; [done|]. split; [done|].
  eapply same_calibration_trans; [exact Hs|apply depthStep_same].
Qed.


(** X10: [rectifyFrames] fills the slot of every camera that has a
    stored frame: with the frame remapped through that camera's maps when
    its first map is not empty, and with a plain copy of the frame
    otherwise (so before calibration the processed frames are the frames
    themselves).  The slot of a camera without a stored frame keeps
    whatever an earlier pass left there, and nothing else changes. *)
Theorem rectifyFrames_fills_slots (s : Processor) :
  wf s -> (forall c f, currentFrames s !! c = Some f -> 0 <= c < cameraCount s) ->
  exists s',
    rectifyFrames s = Some (tt, s', []) /\
    (forall c f, currentFrames s !! c = Some f ->
       processedFrames s' !! Z.to_nat c =
         Some (if Mat_empty (matOf (rectifyMaps1 s) c) then f
               else remap f (matOf (rectifyMaps1 s) c) (matOf (rectifyMaps2 s) c))) /\
    (forall c, 0 <= c -> currentFrames s !! c = None ->
       processedFrames s' !! Z.to_nat c = processedFrames s !! Z.to_nat c) /\
    currentFrames s' = currentFrames s /\ depthMap s' = depthMap s /\
    same_calibration s s'.
Proof.
  intros Hwf Hkeys. exists (rectifiedState s).
  split; [by apply rectifyFrames_run|].
  destruct (rectifyLoop_frames (frames_in_order (currentFrames s)) s)
    as (Hf & Hd & _).
  split; [|split; [|split; [exact Hf|split; [exact Hd|apply rectifyLoop_same]]]].
  - intros c f Hl. unfold rectifiedState.
    rewrite (rectifyLoop_processed _ s (c, f)).
    + unfold rectifiedFrame, to_size_t. simpl.
      pose proof (Hkeys c f Hl). pose proof (wf_count s Hwf).
      rewrite Z.mod_small by lia.
      rewrite bool_decide_eq_true_2 by (rewrite (wf_rectify1 s Hwf); lia).
      simpl. by destruct (Mat_empty (matOf (rectifyMaps1 s) c)).
    + apply NoDup_frames_in_order.
    + intros [c' f'] Hin. apply elem_of_frames_in_order in Hin.
      rewrite (wf_processed s Hwf). pose proof (Hkeys c' f' Hin). simpl. lia.
    + by apply elem_of_frames_in_order.
  - intros c Hc Hnone. unfold rectifiedState.
    apply rectifyLoop_untouched; [done| |].
    + intros [c' f'] Hin. apply elem_of_frames_in_order in Hin.
      pose proof (Hkeys c' f' Hin). simpl. lia.
    + intros Hin. apply elem_of_frame_keys in Hin as [f Hf'].
      by rewrite Hnone in Hf'.
Qed.

(** *** When the calls are defined *)

Lemma bind_None {A B} (m : M A) (f : A -> M B) s :
  m s = None -> (m ≫= f) s = None.
Proof. intros Hm. unfold mbind, M_bind, bind. by rewrite Hm. Qed.

Lemma bind_is_Some {A B} (m : M A) (f : A -> M B) s :
  is_Some ((m ≫= f) s) ->
  exists a s1 l1, m s = Some (a, s1, l1) /\ is_Some (f a s1).
Proof.
  unfold mbind, M_bind, bind.
  destruct (m s) as [[[a s1] l1]|]; [|by intros [? ?]].
  intros H. exists a, s1, l1. split; [done|].
  destruct (f a s1); [done|]. by destruct H.
Qed.

Lemma bind_inv {A B} (m : M A) (f : A -> M B) s r :
  (m ≫= f) s = Some r ->
  exists a s1 l1, m s = Some (a, s1, l1) /\ prefix l1 (f a s1) = Some r.
Proof.
  unfold mbind, M_bind, bind.
  destruct (m s) as [[[a s1] l1]|]; [|done].
  intros H. exists a, s1, l1. split; [done|].
  by destruct (f a s1) as [[[??]?]|].
Qed.

Lemma prefix_is_Some {A} l (r : option (A * Processor * list Event)) :
  is_Some (prefix l r) -> is_Some r.
Proof. destruct r; [eauto|]. by intros [? ?]. Qed.

Lemma prefix_inv {A} l (r : option (A * Processor * list Event)) a s l' :
  prefix l r = Some (a, s, l') -> exists l2, r = Some (a, s, l2) /\ l' = l ++ l2.
Proof.
  destruct r as [[[a0 s0] l0]|]; [|done]. simpl. intros [= -> -> <-]. eauto.
Qed.

Lemma vec_get_None {A} (v : list A) (i : Z) s :
  ~ (0 <= i < Z.of_nat (length v)) -> vec_get v i s = None.
Proof.
  intros Hi. unfold vec_get. case_bool_decide; [|done].
  by rewrite lookup_ge_None_2 by lia.
Qed.

Lemma vec_set_None {A} (v : list A) (i : Z) (a : A) s :
  ~ (0 <= i < Z.of_nat (length v)) -> vec_set v i a s = None.
Proof. intros Hi. unfold vec_set. by rewrite bool_decide_eq_false_2. Qed.

Lemma decodeOne_run_weak timestamps cameraIds (item : nat * list Byte.byte) s :
  (item.1 < length cameraIds)%nat ->
  (Mat_empty (imdecode item.2 IMREAD_COLOR) = false ->
   (item.1 < length timestamps)%nat) ->
  decodeOne timestamps cameraIds item s =
    Some (tt, decodeStep timestamps cameraIds s item,
          decodeLog timestamps cameraIds item).
Proof.
  intros Hid Hts. destruct (Mat_empty (imdecode item.2 IMREAD_COLOR)) eqn:E.
  - unfold decodeOne, decodeStep, decodeLog, idOf. rewrite E.
    rewrite (bind_vec_get 0) by lia. by rewrite Nat2Z.id.
  - apply decodeOne_run; [done|by apply Hts].
Qed.

Lemma decodeOne_inv timestamps cameraIds (item : nat * list Byte.byte) s :
  is_Some (decodeOne timestamps cameraIds item s) ->
  (item.1 < length cameraIds)%nat /\
  (Mat_empty (imdecode item.2 IMREAD_COLOR) = false ->
   (item.1 < length timestamps)%nat).
Proof.
  intros H. assert (Hid : (item.1 < length cameraIds)%nat).
  { destruct (decide (item.1 < length cameraIds)%nat) as [|Hn]; [done|].
    exfalso. revert H. unfold decodeOne.
    destruct (Mat_empty _);
      (rewrite bind_None by (apply vec_get_None; lia)); by intros [? ?]. }
  split; [done|]. intros E.
  destruct (decide (item.1 < length timestamps)%nat) as [|Hn]; [done|].
  exfalso. revert H. unfold decodeOne. rewrite E.
  rewrite (bind_vec_get 0) by lia. mrun.
  rewrite (bind_vec_get 0) by lia. cbv beta.
  rewrite bind_None by (apply vec_get_None; lia). by intros [? ?].
Qed.

Lemma decodeLoop_run_weak timestamps cameraIds
    (items : list (nat * list Byte.byte)) s :
  (forall item, item ∈ items ->
     (item.1 < length cameraIds)%nat /\
     (Mat_empty (imdecode item.2 IMREAD_COLOR) = false ->
      (item.1 < length timestamps)%nat)) ->
  for_each items (decodeOne timestamps cameraIds) s =
    Some (tt, foldl (decodeStep timestamps cameraIds) s items,
          item ← items; decodeLog timestamps cameraIds item).
Proof.
  revert s. induction items as [|item items IH]; intros s Hin; [done|].
  destruct (Hin item) as [H1 H2]; [left|].
  simpl. eapply bind_Some; [by apply decodeOne_run_weak|].
  apply IH. intros item' ?. apply Hin. by right.
Qed.

Lemma decodeLoop_inv timestamps cameraIds (items : list (nat * list Byte.byte)) s :
  is_Some (for_each items (decodeOne timestamps cameraIds) s) ->
  forall item, item ∈ items ->
    (item.1 < length cameraIds)%nat /\
    (Mat_empty (imdecode item.2 IMREAD_COLOR) = false ->
     (item.1 < length timestamps)%nat).
Proof.
  revert s. induction items as [|item items IH]; intros s H item' Hin;
    [by apply elem_of_nil in Hin|].
  simpl in H. apply bind_is_Some in H as (a & s1 & l1 & H1 & H2).
  apply elem_of_cons in Hin as [->|Hin].
  - apply (decodeOne_inv timestamps cameraIds item s). rewrite H1. eauto.
  - by eapply IH.
Qed.

Lemma rectifyOne_unknown_camera (s : Processor) (framePair : Z * Mat) :
  wf s -> ~ (0 <= framePair.1 < cameraCount s) -> rectifyOne framePair s = None.
Proof.
  intros Hwf Hc.
  assert (H1 := wf_rectify1 s Hwf). assert (Hp := wf_processed s Hwf).
  assert (Hn := wf_count s Hwf).
  unfold rectifyOne. mrun. case_bool_decide.
  - rewrite bind_assoc. apply bind_None, vec_get_None. lia.
  - mrun. apply bind_None, vec_set_None. lia.
Qed.

Lemma rectifyLoop_inv (frames : list (Z * Mat)) (s : Processor) :
  wf s -> is_Some (for_each frames rectifyOne s) ->
  forall fp, fp ∈ frames -> 0 <= fp.1 < cameraCount s.
Proof.
  revert s. induction frames as [|fp0 frames IH]; intros s Hwf H fp Hin;
    [by apply elem_of_nil in Hin|].
  simpl in H. apply bind_is_Some in H as (a & s1 & l1 & H1 & H2).
  assert (Hc : 0 <= fp0.1 < cameraCount s).
  { destruct (decide (0 <= fp0.1 < cameraCount s)) as [|Hn]; [done|].
    by rewrite rectifyOne_unknown_camera in H1. }
  apply elem_of_cons in Hin as [->|Hin]; [done|].
  rewrite rectifyOne_run in H1 by done. injection H1 as <- <- <-.
  apply (IH (rectifyStep s fp0)); [|done|done].
  eapply same_calibration_wf; [apply rectifyStep_same|done].
Qed.

Lemma rectifyFrames_inv (s : Processor) :
  wf s -> is_Some (rectifyFrames s) ->
  forall c f, currentFrames s !! c = Some f -> 0 <= c < cameraCount s.
Proof.
  intros Hwf H c f Hl. unfold rectifyFrames in H. rewrite bind_get in H.
  apply (rectifyLoop_inv _ s Hwf H (c, f)). by apply elem_of_frames_in_order.
Qed.

Lemma generateStereoDepthMap_one_camera (s : Processor) :
  wf s -> cameraCount s < 2 -> (2 <= size (currentFrames s))%nat ->
  generateStereoDepthMap s = None.
Proof.
  intros Hwf Hn Hsz.
  assert (H1 := wf_rectify1 s Hwf). assert (H2 := wf_rectify2 s Hwf).
  assert (Hc := wf_count s Hwf).
  unfold generateStereoDepthMap. mrun.
  rewrite (bool_decide_eq_false_2 (size (currentFrames s) < 2)%nat) by lia.
  destruct (frames_in_order (currentFrames s)) as [|[c1 f1] [|[c2 f2] rest]];
    [done..|].
  mrun. destruct (decide (cameraCount s = 0)) as [E|E].
  - apply (f_equal (prefix [EvDisparityStart])
             (bind_None _ _ _ (vec_get_None (rectifyMaps1 s) 0 s ltac:(lia)))).
  - rewrite !(bind_vec_get Mat_new) by lia. cbv beta. mrun.
    rewrite bind_None by (apply vec_get_None; lia). reflexivity.
Qed.


Lemma decodedState_keys_weak timestamps cameraIds frameDataList s :
  batch_defined s frameDataList timestamps cameraIds ->
  forall c f,
    currentFrames (decodedState timestamps cameraIds frameDataList s) !! c = Some f ->
    0 <= c < cameraCount s.
Proof.
  intros [_ Hrange] c f Hl. unfold decodedState in Hl.
  rewrite decodeLoop_frames in Hl.
  change (currentFrames (clearedState s)) with (∅ : gmap Z Mat) in Hl.
  apply storeFrames_origin in Hl as [Hl|(item & Hin & <- & -> & Hok)];
    [by rewrite lookup_empty in Hl|].
  apply elem_of_batchItems in Hin. by apply (Hrange _ _ Hin).
Qed.

Lemma processMultiFrame_defined_run (s : Processor)
    (frameDataList : list (list Byte.byte)) (timestamps : list Qc)
    (cameraIds : list Z) :
  wf s -> batch_defined s frameDataList timestamps cameraIds ->
  processMultiFrame frameDataList timestamps cameraIds s =
    Some (tt, frameState timestamps cameraIds frameDataList s,
          frameLog timestamps cameraIds frameDataList s).
Proof.
  intros Hwf Hok. pose proof Hok as [Hids Hrange].
  unfold processMultiFrame, frameState, frameLog. mrun.
  rewrite (bind_run _ _ _ _ _ _ (checkSynchronization_run timestamps s)). mrun.
  rewrite (bind_run _ _ _ _ _ _
             (decodeLoop_run_weak timestamps cameraIds (batchItems frameDataList)
                (clearedState s)
                ltac:(intros item Hi; apply elem_of_batchItems in Hi;
                      split; [apply lookup_lt_Some in Hi; lia|];
                      intros Hd; by apply (Hrange _ _ Hi Hd)))).
  fold (decodedState timestamps cameraIds frameDataList s).
  set (s1 := decodedState timestamps cameraIds frameDataList s).
  assert (Hsame1 : same_calibration s s1) by apply decodedState_same.
  assert (Hwf1 : wf s1) by by eapply same_calibration_wf.
  assert (Hkeys : forall c f, currentFrames s1 !! c = Some f ->
                    0 <= c < cameraCount s1).
  { intros c f Hl. rewrite (same_count _ _ Hsame1).
    by eapply decodedState_keys_weak. }
  rewrite (bind_run _ _ _ _ _ _ (rectifyFrames_run s1 Hwf1 Hkeys)). mrun.
  set (s2 := rectifiedState s1).
  assert (Hsame2 : same_calibration s1 s2) by apply rectifyLoop_same.
  assert (Hwf2 : wf s2) by by eapply same_calibration_wf.
  destruct (rectifyLoop_frames (frames_in_order (currentFrames s1)) s1)
    as (Hframes2 & _). fold (rectifiedState s1) in Hframes2. fold s2 in Hframes2.
  rewrite (bind_run _ _ _ _ _ _
             (depthStage_run s2 Hwf2
                ltac:(intros c f Hl; rewrite Hframes2 in Hl;
                      rewrite (same_count _ _ Hsame2); by eapply Hkeys))).
  rewrite (bind_run _ _ _ _ _ _ (detectAndMatchFeatures_outcome (depthStage s2))).
  rewrite (bind_run _ _ _ _ _ _ (perform3DTriangulation_run (depthStage s2))).
  rewrite (bind_run _ _ _ _ _ _ (calculatePreciseMeasurements_run (depthStage s2))).
  mrun. unfold emit. rewrite !prefix_Some, app_nil_l. reflexivity.
Qed.

Lemma processMultiFrame_inv (s : Processor)
    (frameDataList : list (list Byte.byte)) (timestamps : list Qc)
    (cameraIds : list Z) :
  wf s -> is_Some (processMultiFrame frameDataList timestamps cameraIds s) ->
  batch_defined s frameDataList timestamps cameraIds.
Proof.
  intros Hwf. unfold processMultiFrame. mrun.
  rewrite (bind_run _ _ _ _ _ _ (checkSynchronization_run timestamps s)). mrun.
  intros H. do 2 apply prefix_is_Some in H.
  apply bind_is_Some in H as (a & s1 & l1 & Hdec & H).
  change (for_each (batchItems frameDataList) (decodeOne timestamps cameraIds)
            (clearedState s) = Some (a, s1, l1)) in Hdec.
  assert (Hitems := decodeLoop_inv timestamps cameraIds (batchItems frameDataList)
                      (clearedState s) ltac:(eexists; exact Hdec)).
  rewrite decodeLoop_run_weak in Hdec by done. injection Hdec as <- <- <-.
  fold (decodedState timestamps cameraIds frameDataList s) in H.
  set (s1 := decodedState timestamps cameraIds frameDataList s) in *.
  assert (Hsame1 : same_calibration s s1) by apply decodedState_same.
  assert (Hwf1 : wf s1) by by eapply same_calibration_wf.
  apply bind_is_Some in H as (a & s2 & l2 & Hrect & _).
  assert (Hkeys := rectifyFrames_inv s1 Hwf1 ltac:(eexists; exact Hrect)).
  split.
  - destruct (decide (length frameDataList <= length cameraIds)%nat) as [|Hn];
      [done|]. exfalso.
    destruct (lookup_lt_is_Some_2 frameDataList (length cameraIds)) as [data Hd];
      [lia|].
    destruct (Hitems (length cameraIds, data)) as [Hlt _];
      [by apply elem_of_batchItems|]. simpl in Hlt. lia.
  - intros i data Hl Hok.
    destruct (Hitems (i, data)) as [_ Hts]; [by apply elem_of_batchItems|].
    split; [by apply Hts|].
    rewrite <- (same_count _ _ Hsame1).
    destruct (storeFrames_present cameraIds (batchItems frameDataList) ∅ (i, data))
      as [f Hf]; [by apply elem_of_batchItems|done|].
    apply (Hkeys _ f). unfold s1, decodedState. by rewrite decodeLoop_frames.
Qed.


(** X12: on a well-formed processor, [rectifyFrames] returns exactly when
    every stored frame belongs to a configured camera; a frame stored
    under any other id, negative or too large, makes it write outside
    [processedFrames]. *)
Theorem rectifyFrames_defined_iff (s : Processor) :
  wf s ->
  (is_Some (rectifyFrames s) <->
   forall c f, currentFrames s !! c = Some f -> 0 <= c < cameraCount s).
Proof.
  intros Hwf. split; [by apply rectifyFrames_inv|].
  intros Hkeys. rewrite rectifyFrames_run by done. eauto.
Qed.


(** *** What the public interface can reach *)

Lemma pointsOf_uncalibrated s c : uncalibrated s -> pointsOf s c = [].
Proof.
  intros Hu. unfold pointsOf.
  destruct (imagePointsPerCamera s !! Z.to_nat c) as [pts|] eqn:E; [|done].
  simpl. exact (Forall_lookup_1 _ _ _ _ (unc_imagePoints s Hu) E).
Qed.

Lemma matOf_uncalibrated (v : list Mat) (c : Z) :
  Forall (fun m => m = Mat_new) v -> matOf v c = Mat_new.
Proof.
  intros Hv. unfold matOf.
  destruct (v !! Z.to_nat c) as [m|] eqn:E; [|done].
  simpl. exact (Forall_lookup_1 _ _ _ _ Hv E).
Qed.

Lemma uncalibrated_same s s' :
  same_calibration s s' -> uncalibrated s -> uncalibrated s'.
Proof.
  intros Hs Hu. pose proof (same_calibration_wf s s' Hs (unc_wf s Hu)).
  destruct Hs, Hu. constructor; congruence.
Qed.

Lemma fresh_uncalibrated : uncalibrated fresh.
Proof.
  constructor; simpl; by constructor.
Qed.

Lemma initializedState_uncalibrated w h numCameras s :
  0 <= numCameras < 2 ^ 31 -> uncalibrated s ->
  uncalibrated (initializedState w h numCameras s).
Proof.
  intros Hn Hu. destruct Hu.
  constructor; simpl; try (by apply Forall_resize); [|done].
  by apply initializedState_wf.
Qed.

Lemma calibrateStep_uncalibrated s c : uncalibrated s -> calibrateStep s c = s.
Proof.
  intros Hu. unfold calibrateStep. rewrite pointsOf_uncalibrated by done.
  by rewrite bool_decide_eq_true_2 by (simpl; lia).
Qed.

Lemma calibrateLoop_uncalibrated cams s :
  uncalibrated s -> foldl calibrateStep s cams = s.
Proof.
  intros Hu. induction cams as [|c cams IH]; [done|].
  simpl. by rewrite calibrateStep_uncalibrated.
Qed.

Lemma calibrateLogs_uncalibrated cams s :
  uncalibrated s ->
  (c ← cams; calibrateLog s c) = EvInsufficientCalibrationPoints <$> cams.
Proof.
  intros Hu. induction cams as [|c cams IH]; [done|].
  cbn. rewrite IH. unfold calibrateLog.
  rewrite pointsOf_uncalibrated by done.
  by rewrite bool_decide_eq_true_2 by (simpl; lia).
Qed.

Lemma calibrationOutcome_uncalibrated s :
  uncalibrated s ->
  calibrationOutcome s =
    if bool_decide (cameraCount s < 2)
    then (false, s, [EvNeedTwoCamerasForCalibration])
    else (true, s,
          [EvCalibrationStart] ++
          (EvInsufficientCalibrationPoints <$> range (cameraCount s)) ++
          [EvStereoStart 0 1; EvStereoMissingPoints] ++
          [EvBundleAdjustmentStart; EvBundleAdjustmentDone]).
Proof.
  intros Hu. unfold calibrationOutcome. case_bool_decide; [done|].
  rewrite calibrateLoop_uncalibrated, calibrateLogs_uncalibrated by done.
  unfold stereoOutcome, stereoMissing. rewrite !pointsOf_uncalibrated by done.
  by rewrite (bool_decide_eq_true_2 (@nil Point2f = [])) by done.
Qed.

Lemma performStereoCalibration_uncalibrated s c1 c2 r :
  uncalibrated s -> performStereoCalibration c1 c2 s = Some r ->
  r = (false, s, [EvStereoStart c1 c2; EvStereoMissingPoints]).
Proof.
  intros Hu. unfold performStereoCalibration. mrun.
  destruct (decide (0 <= c1 < Z.of_nat (length (imagePointsPerCamera s))))
    as [Hc|Hc].
  - rewrite (bind_vec_get []) by done. fold (pointsOf s c1).
    rewrite pointsOf_uncalibrated by done.
    rewrite (bool_decide_eq_true_2 (@nil Point2f = [])) by done. mrun.
    by intros [= <-].
  - by rewrite bind_None by (by apply vec_get_None).
Qed.

Lemma generateStereoDepthMap_short (s : Processor) :
  (size (currentFrames s) < 2)%nat -> generateStereoDepthMap s = Some (tt, s, []).
Proof.
  intros Hsz. unfold generateStereoDepthMap. mrun.
  by rewrite bool_decide_eq_true_2.
Qed.

Lemma frameState_same timestamps cameraIds frameDataList s :
  same_calibration s (frameState timestamps cameraIds frameDataList s).
Proof.
  destruct (frameState_frames timestamps cameraIds frameDataList s)
    as (_ & _ & Hs).
  eapply same_calibration_trans; [apply decodedState_same|exact Hs].
Qed.

Lemma call_uncalibrated (c : Call) (s s' : Processor) (log : list Event) :
  uncalibrated s -> int_args c -> call c s = Some (tt, s', log) ->
  uncalibrated s'.
Proof.
  intros Hu Hint Hcall. pose proof (unc_wf s Hu) as Hwf.
  destruct c as [w h n| |c1 c2| |f ts ids| | | |]; simpl in Hcall.
  - apply bind_inv in Hcall as (a & s1 & l1 & H1 & H2).
    rewrite initialize_run in H1. case_bool_decide; [done|].
    injection H1 as <- <- <-. apply prefix_inv in H2 as (l2 & [= <- _] & _).
    apply initializedState_uncalibrated; [|done].
    destruct Hint as (_ & _ & Hn). unfold is_int in Hn. lia.
  - apply bind_inv in Hcall as (a & s1 & l1 & H1 & H2).
    rewrite performAutomaticCalibration_run in H1 by done.
    rewrite calibrationOutcome_uncalibrated in H1 by done.
    apply prefix_inv in H2 as (l2 & [= <- _] & _).
    by case_bool_decide; injection H1 as _ <- _.
  - apply bind_inv in Hcall as (a & s1 & l1 & H1 & H2).
    apply performStereoCalibration_uncalibrated in H1; [|done].
    injection H1 as _ -> _. by apply prefix_inv in H2 as (l2 & [= <- _] & _).
  - rewrite performBundleAdjustment_run in Hcall by done.
    by injection Hcall as <- _.
  - assert (Hok : batch_defined s f ts ids)
      by (apply processMultiFrame_inv; [done|eexists; exact Hcall]).
    rewrite processMultiFrame_defined_run in Hcall by done.
    injection Hcall as <- _.
    eapply uncalibrated_same; [apply frameState_same|done].
  - destruct (decide (size (currentFrames s) < 2)%nat) as [Hsz|Hsz].
    + rewrite generateStereoDepthMap_short in Hcall by done.
      by injection Hcall as <- _.
    + destruct (decide (2 <= cameraCount s)) as [Hn|Hn].
      * rewrite generateStereoDepthMap_run in Hcall by (done || lia).
        injection Hcall as <- _.
        eapply uncalibrated_same; [apply depthStep_same|done].
      * by rewrite generateStereoDepthMap_one_camera in Hcall by (done || lia).
  - rewrite detectAndMatchFeatures_outcome in Hcall. by injection Hcall as <- _.
  - rewrite perform3DTriangulation_run in Hcall. by injection Hcall as <- _.
  - rewrite calculatePreciseMeasurements_run in Hcall. by injection Hcall as <- _.
Qed.

Lemma reachable_uncalibrated s : reachable s -> uncalibrated s.
Proof.
  induction 1 as [|s c s' log _ IH Hint Hcall]; [apply fresh_uncalibrated|].
  by eapply call_uncalibrated.
Qed.

(** X14: no sequence of public calls ever stores a calibration point or
    writes a calibration result.  On every processor reachable from the
    constructed one through returning public calls, the per-camera
    vectors have one slot per camera, every camera has an empty list of
    image points, and every intrinsic matrix, distortion vector, rotation,
    translation and rectification map, and the matrix Q, is still the
    empty default matrix. *)
Theorem public_calls_never_calibrate (s : Processor) :
  reachable s ->
  wf s /\ Q s = Mat_new /\
  forall c,
    pointsOf s c = [] /\
    matOf (cameraMatrices s) c = Mat_new /\
    matOf (distortionCoefficients s) c = Mat_new /\
    matOf (rotationMatrices s) c = Mat_new /\
    matOf (translationVectors s) c = Mat_new /\
    matOf (rectifyMaps1 s) c = Mat_new /\
    matOf (rectifyMaps2 s) c = Mat_new.
Proof.
  intros Hr. pose proof (reachable_uncalibrated s Hr) as Hu.
  split; [apply Hu|]. split; [apply Hu|]. intros c.
  split; [by apply pointsOf_uncalibrated|].
  repeat split; apply matOf_uncalibrated; apply Hu.
Qed.

(** X15: on every processor reachable through the public interface,
    [performAutomaticCalibration] calls neither [calibrateCamera] nor
    [stereoCalibrate] and leaves the processor as it was; with two or
    more cameras it nevertheless returns [true], after reporting every
    camera as short of calibration points and the stereo pair as missing
    its points. *)
Theorem automatic_calibration_finds_no_points (s : Processor) :
  reachable s ->
  exists log,
    performAutomaticCalibration s =
      Some (bool_decide (2 <= cameraCount s), s, log) /\
    (forall c n m flags, EvCallCalibrateCamera c n m flags ∉ log) /\
    (forall c1 c2 n flags criteria,
       EvCallStereoCalibrate c1 c2 n flags criteria ∉ log) /\
    (2 <= cameraCount s ->
       EvStereoMissingPoints ∈ log /\
       forall c, 0 <= c < cameraCount s ->
         EvInsufficientCalibrationPoints c ∈ log).
Proof.
  intros Hr. pose proof (reachable_uncalibrated s Hr) as Hu.
  rewrite performAutomaticCalibration_run by apply Hu.
  rewrite calibrationOutcome_uncalibrated by done.
  case_bool_decide as Hn.
  - rewrite bool_decide_eq_false_2 by lia. eexists. split; [reflexivity|].
    split; [|split; [|lia]].
    + intros c n m flags Hin. apply list_elem_of_singleton in Hin. discriminate.
    + intros c1 c2 n flags cr Hin. apply list_elem_of_singleton in Hin.
      discriminate.
  - rewrite bool_decide_eq_true_2 by lia. eexists. split; [reflexivity|].
    assert (Hnot : forall e,
      e ∈ [EvCalibrationStart] ++
          (EvInsufficientCalibrationPoints <$> range (cameraCount s)) ++
          [EvStereoStart 0 1; EvStereoMissingPoints] ++
          [EvBundleAdjustmentStart; EvBundleAdjustmentDone] ->
      match e with
      | EvCallCalibrateCamera _ _ _ _ | EvCallStereoCalibrate _ _ _ _ _ => False
      | _ => True
      end).
    { intros e. rewrite !elem_of_app, list_elem_of_fmap, !elem_of_cons.
      intros [[->|[]%elem_of_nil]|[(c & -> & _)|
              [[->|[->|[]%elem_of_nil]]|[->|[->|[]%elem_of_nil]]]]]; done. }
    split; [intros c n m flags Hin; apply (Hnot _ Hin)|].
    split; [intros c1 c2 n flags cr Hin; apply (Hnot _ Hin)|].
    intros _. split.
    + rewrite !elem_of_app. right. right. left. right. by left.
    + intros c Hc. rewrite !elem_of_app. right. left.
      apply list_elem_of_fmap. exists c. split; [done|by apply elem_of_range].
Qed.


(** *** The JNI bridge *)

Lemma copyArray_from {A} (array : list A) (k n : nat) :
  (k + n <= length array)%nat ->
  mapM (fun i => array !! i) (seq k n) = Some (take n (drop k array)).
Proof.
  revert k. induction n as [|n IH]; intros k Hlen; [done|].
  destruct (lookup_lt_is_Some_2 array k) as [x Hx]; [lia|].
  cbn. rewrite Hx. cbn. rewrite IH by lia. cbn.
  by rewrite (drop_S _ _ _ Hx).
Qed.

Lemma copyArray_spec {A} (array : list A) (n : nat) :
  copyArray array n =
    if bool_decide (n <= length array)%nat then Some (take n array) else None.
Proof.
  unfold copyArray. case_bool_decide as Hn.
  - by rewrite copyArray_from by lia.
  - apply eq_None_not_Some. intros H. apply mapM_is_Some_1 in H.
    rewrite Forall_forall in H.
    destruct (H (length array)) as [x Hx]; [apply elem_of_seq; lia|].
    simpl in Hx. apply lookup_lt_Some in Hx. lia.
Qed.


Lemma nativeProcessMultiFrame_run (p : Processor)
    (frameData : list (list Byte.byte)) (timestamps : list Qc)
    (cameraIds : list Z) :
  nativeProcessMultiFrame frameData timestamps cameraIds (Some p) =
    if bool_decide (length frameData <= length timestamps)%nat
       && bool_decide (length frameData <= length cameraIds)%nat
    then bridge_result
           (processMultiFrame frameData
              (take (length frameData) timestamps)
              (take (length frameData) cameraIds) p)
    else None.
Proof.
  unfold nativeProcessMultiFrame. rewrite !copyArray_spec.
  by do 2 case_bool_decide.
Qed.


(** X17: [nativeProcessMultiFrame] does nothing while no processor
    exists.  With a processor it hands [processMultiFrame] the frames
    together with exactly the first [frameCount] timestamps and camera
    ids, so that entries beyond the number of frames take no part, not
    even in the synchronisation check; an array shorter than the frame
    array is read past its end. *)
Theorem nativeProcessMultiFrame_passes_frameCount_entries (p : Processor)
    (frameData : list (list Byte.byte)) (timestamps moreTimestamps : list Qc)
    (cameraIds moreCameraIds : list Z) :
  nativeProcessMultiFrame frameData timestamps cameraIds None = Some (None, []) /\
  ((length frameData <= length timestamps)%nat ->
   (length frameData <= length cameraIds)%nat ->
   nativeProcessMultiFrame frameData timestamps cameraIds (Some p) =
     bridge_result
       (processMultiFrame frameData (take (length frameData) timestamps)
          (take (length frameData) cameraIds) p) /\
   nativeProcessMultiFrame frameData (timestamps ++ moreTimestamps)
       (cameraIds ++ moreCameraIds) (Some p) =
     nativeProcessMultiFrame frameData timestamps cameraIds (Some p)) /\
  ((length timestamps < length frameData)%nat \/
   (length cameraIds < length frameData)%nat ->
   nativeProcessMultiFrame frameData timestamps cameraIds (Some p) = None).
Proof.
  split; [done|]. split.
  - intros Ht Hi. rewrite !nativeProcessMultiFrame_run.
    rewrite !length_app, !take_app_le by done.
    by rewrite !bool_decide_eq_true_2 by lia.
  - intros Hshort. rewrite nativeProcessMultiFrame_run.
    destruct Hshort.
    + by rewrite (bool_decide_eq_false_2
                    (length frameData <= length timestamps)%nat) by lia.
    + rewrite (bool_decide_eq_false_2
                 (length frameData <= length cameraIds)%nat) by lia.
      by rewrite andb_false_r.
Qed.


Lemma bridge_reachable_reachable (b : Bridge) :
  bridge_reachable b -> forall p, b = Some p -> reachable p.
Proof.
  induction 1 as [|b c b' log _ IH Hint Hcall]; [done|].
  intros p' ->. destruct c as [w h n|f ts ids|]; simpl in Hcall.
  - unfold nativeInitializeProcessor in Hcall.
    set (p := match b with None => fresh | Some p => p end) in *.
    assert (Hp : reachable p).
    { unfold p. destruct b; [by apply IH|apply reachable_fresh]. }
    destruct (initialize w h n p) as [[[a p1] l1]|] eqn:E; [|done].
    simpl in Hcall. injection Hcall as -> ->.
    apply (reachable_call p (CallInitialize w h n) p' (log ++ []) Hp Hint).
    simpl. by eapply bind_Some.
  - destruct b as [p|]; [|done]. rewrite nativeProcessMultiFrame_run in Hcall.
    destruct (_ && _); [|done].
    destruct (processMultiFrame _ _ _ p) as [[[[] p1] l1]|] eqn:E; [|done].
    simpl in Hcall. injection Hcall as -> ->.
    exact (reachable_call p
             (CallProcessMultiFrame f (take (length f) ts) (take (length f) ids))
             p' log (IH p eq_refl) I E).
  - done.
Qed.

(** X19: whatever sequence of bridge calls the Java side makes, the
    processor behind the bridge, when there is one, is one the public
    interface can reach: it is well formed, it holds no calibration
    point, and its rectification maps are empty, so that no frame
    submitted through the bridge is ever rectified. *)
Theorem bridge_processor_is_uncalibrated (b : Bridge) (p : Processor) :
  bridge_reachable b -> b = Some p ->
  reachable p /\ wf p /\
  forall c, pointsOf p c = [] /\ matOf (rectifyMaps1 p) c = Mat_new /\
            forall frame, rectifiedFrame p (c, frame) = frame.
Proof.
  intros Hb ->. pose proof (bridge_reachable_reachable _ Hb p eq_refl) as Hr.
  pose proof (reachable_uncalibrated p Hr) as Hu.
  split; [done|]. split; [apply Hu|]. intros c.
  split; [by apply pointsOf_uncalibrated|].
  assert (Hm : matOf (rectifyMaps1 p) c = Mat_new)
    by (apply matOf_uncalibrated; apply Hu).
  split; [done|]. intros frame. unfold rectifiedFrame. cbn [fst snd]. rewrite Hm.
  change (negb (Mat_empty Mat_new)) with false. by rewrite andb_false_r.
Qed.

(** *** The residual function of the bundle adjustment *)

Lemma readParams_None (params : list Qc) (paramIdx count : nat) (s : Processor) :
  (paramIdx <= length params < paramIdx + count)%nat ->
  readParams params paramIdx count s = None.
Proof.
  revert paramIdx. induction count as [|count IH]; intros paramIdx Hlen; [lia|].
  simpl. unfold param_get.
  destruct (params !! paramIdx) as [x|] eqn:E; [|done].
  apply lookup_lt_Some in E. rewrite bind_ret. apply IH. lia.
Qed.

Lemma residualParamsLoop_None (cams : list Z) (params : list Qc) (paramIdx : nat)
    (s : Processor) :
  (paramIdx <= length params < paramIdx + 15 * length cams)%nat ->
  residualParamsLoop cams params paramIdx s = None.
Proof.
  revert paramIdx. induction cams as [|c cams IH]; intros paramIdx Hlen;
    cbn [residualParamsLoop length] in *; [lia|].
  destruct (decide (length params < paramIdx + 4)%nat).
  { apply bind_None, readParams_None. lia. }
  rewrite (bind_run _ _ _ _ _ _ (readParams_run params paramIdx 4 s ltac:(lia))),
    prefix_nil.
  destruct (decide (length params < paramIdx + 4 + 5)%nat).
  { apply bind_None, readParams_None. lia. }
  rewrite (bind_run _ _ _ _ _ _
             (readParams_run params (paramIdx + 4) 5 s ltac:(lia))),
    prefix_nil.
  destruct (decide (length params < paramIdx + 4 + 5 + 6)%nat).
  { apply bind_None, readParams_None. lia. }
  rewrite (bind_run _ _ _ _ _ _
             (readParams_run params (paramIdx + 4 + 5) 6 s ltac:(lia))),
    prefix_nil.
  apply IH. lia.
Qed.

(** X20: on a well-formed processor, the residual function of the
    bundle adjustment is defined exactly on parameter vectors of at
    least fifteen entries per camera: it reads fifteen per camera before
    it computes anything, and a shorter vector is read past its end.
    When it is defined it returns two residuals for every stored image
    point, whatever the [residuals] vector held before. *)
Theorem residualFunction_defined_iff (s : Processor) (params residuals : list Qc) :
  wf s ->
  (is_Some (residualFunction params residuals s) <->
   (15 * Z.to_nat (cameraCount s) <= length params)%nat) /\
  forall out s' log,
    residualFunction params residuals s = Some (out, s', log) ->
    s' = s /\ log = [] /\
    length out =
      (2 * length (c ← range (cameraCount s); pointsOf s c))%nat.
Proof.
  intros Hwf.
  assert (Hres : calculateReprojectionResiduals params residuals s =
            Some (c ← range (cameraCount s);
                  p ← default [] (imagePointsPerCamera s !! Z.to_nat c);
                  [p2x p; p2y p], s, [])).
  { unfold calculateReprojectionResiduals. rewrite bind_get.
    rewrite residualsLoop_run; [done|].
    intros c Hc. apply elem_of_range in Hc.
    rewrite (wf_imagePoints s Hwf). lia. }
  assert (Hlen : length (range (cameraCount s)) = Z.to_nat (cameraCount s))
    by (unfold range; by rewrite length_fmap, length_seq).
  assert (Hnone : ~ (15 * Z.to_nat (cameraCount s) <= length params)%nat ->
                  residualFunction params residuals s = None).
  { intros Hshort. unfold residualFunction. rewrite bind_get.
    apply bind_None, residualParamsLoop_None. lia. }
  split; [split|].
  - intros H.
    destruct (decide (15 * Z.to_nat (cameraCount s) <= length params)%nat)
      as [|Hn]; [done|].
    rewrite Hnone in H by done. by destruct H.
  - intros Hok. rewrite residualFunction_run, Hres by done. eauto.
  - intros out s' log Hrun.
    destruct (decide (15 * Z.to_nat (cameraCount s) <= length params)%nat)
      as [Hok|Hn]; [|by rewrite Hnone in Hrun].
    rewrite residualFunction_run, Hres in Hrun by done.
    injection Hrun as <- <- <-. split; [done|]. split; [done|].
    unfold pointsOf. clear Hres Hlen.
    induction (range (cameraCount s)) as [|c cams IH]; [done|].
    cbn. rewrite !length_app, IH.
    assert (Hpts : forall pts : list Point2f,
              length (p ← pts; [p2x p; p2y p]) = (2 * length pts)%nat).
    { clear. induction pts as [|p pts IH]; [done|]. cbn. rewrite IH. lia. }
    rewrite Hpts. lia.
Qed.

(** *** When the validation of a triangulation is defined *)

Lemma get_pt_inv (v : list Point2f) (i : nat) s r :
  get_pt v i s = Some r -> (i < length v)%nat /\ r.1.2 = s.
Proof.
  unfold get_pt. destruct (v !! i) as [p|] eqn:E; [|done].
  intros [= <-]. split; [by eapply lookup_lt_Some|done].
Qed.

Lemma totalErrorLoop_inv (idx : list nat) (p1 r1 p2 r2 : list Point2f)
    (acc : Qc) (s : Processor) :
  is_Some (totalErrorLoop idx p1 r1 p2 r2 acc s) ->
  forall i, i ∈ idx ->
    (i < length p1 /\ i < length r1 /\ i < length p2 /\ i < length r2)%nat.
Proof.
  revert acc s. induction idx as [|i idx IH]; intros acc s H j Hj;
    [by apply elem_of_nil in Hj|].
  simpl in H.
  apply bind_is_Some in H as (a1 & s1 & l1 & G1 & H).
  apply get_pt_inv in G1 as [L1 E1]. simpl in E1. subst s1.
  apply bind_is_Some in H as (a2 & s2 & l2 & G2 & H).
  apply get_pt_inv in G2 as [L2 E2]. simpl in E2. subst s2.
  apply bind_is_Some in H as (a3 & s3 & l3 & G3 & H).
  apply get_pt_inv in G3 as [L3 E3]. simpl in E3. subst s3.
  apply bind_is_Some in H as (a4 & s4 & l4 & G4 & H).
  apply get_pt_inv in G4 as [L4 E4]. simpl in E4. subst s4.
  apply elem_of_cons in Hj as [->|Hj]; [done|]. by eapply IH.
Qed.

(** X21: on a well-formed processor, [validateTriangulation] is defined
    exactly when at least two cameras are configured and there are at
    least as many second-view points and 3D points as first-view points:
    it always reads the calibration of cameras 0 and 1, and its loop runs
    over the first-view points alone.  With no first-view point the mean
    it prints is 0/0, not a number, and the class it prints is the
    low-quality one. *)
Theorem validateTriangulation_defined_iff (s : Processor)
    (points3D : list Point3f) (points1 points2 : list Point2f) :
  wf s ->
  (is_Some (validateTriangulation points3D points1 points2 s) <->
   2 <= cameraCount s /\ (length points1 <= length points2)%nat /\
   (length points1 <= length points3D)%nat) /\
  (2 <= cameraCount s ->
   validateTriangulation points3D [] points2 s =
     Some (tt, s, [EvValidatingTriangulation; EvMeanReprojectionError None;
                   EvTriangulationQuality LowQuality])).
Proof.
  intros Hwf.
  assert (Hcm := wf_cameraMatrices s Hwf). assert (Hdc := wf_distortion s Hwf).
  assert (Hro := wf_rotation s Hwf). assert (Htr := wf_translation s Hwf).
  assert (Hn := wf_count s Hwf).
  split; [split|].
  - unfold validateTriangulation. mrun. intros H. apply prefix_is_Some in H.
    destruct (decide (2 <= cameraCount s)) as [H2|H2].
    + split; [done|]. revert H.
      rewrite !(bind_vec_get Mat_new) by lia. cbv beta. intros H.
      apply bind_is_Some in H as (a & s1 & l1 & Hloop & _).
      pose proof (totalErrorLoop_inv _ _ _ _ _ _ _ ltac:(eexists; exact Hloop))
        as Hidx.
      destruct (decide (length points1 = 0%nat)) as [E|E]; [lia|].
      destruct (Hidx (length points1 - 1)%nat) as (_ & H3 & H4 & _);
        [apply elem_of_seq; lia|].
      rewrite projectPoints_length in H3. lia.
    + exfalso. revert H. destruct (decide (cameraCount s = 0)) as [E|E].
      * rewrite bind_None by (apply vec_get_None; lia). by intros [? ?].
      * rewrite !(bind_vec_get Mat_new) by lia. cbv beta.
        rewrite bind_None by (apply vec_get_None; lia). by intros [? ?].
  - intros (H2 & Hp2 & Hp3). unfold validateTriangulation. mrun.
    rewrite !(bind_vec_get Mat_new) by lia. cbv beta.
    erewrite bind_run; cycle 1.
    { apply totalErrorLoop_run. intros i Hi. apply elem_of_seq in Hi.
      rewrite !projectPoints_length. lia. }
    mrun. unfold emit. rewrite !prefix_Some. eauto.
  - intros H2. unfold validateTriangulation. mrun.
    rewrite !(bind_vec_get Mat_new) by lia. cbv beta.
    cbn [length seq totalErrorLoop]. mrun. reflexivity.
Qed.

(** *** The coverage figures of the disparity map *)

Lemma qz_le (a b : Z) : a <= b -> (qz a <= qz b)%Qc.
Proof.
  intros Hab. unfold Qcle, qz. simpl. rewrite !Qred_correct.
  by rewrite <- Zle_Qle.
Qed.

Lemma qz_lt (a b : Z) : a < b -> (qz a < qz b)%Qc.
Proof.
  intros Hab. unfold Qclt, qz. simpl. rewrite !Qred_correct.
  by rewrite <- Zlt_Qlt.
Qed.

Lemma countNonZero_compare_GT (src : Mat) :
  countNonZero (compare_GT src 0%Qc) =
    Z.of_nat (length (filter (fun px => (0 < channel 0 px)%Qc) (elems src))).
Proof.
  unfold countNonZero, compare_GT. simpl. f_equal.
  induction (elems src) as [|px pxs IH]; [done|].
  rewrite fmap_cons, !filter_cons.
  destruct (decide (0 < channel 0 px)%Qc) as [Hpos|Hneg].
  - rewrite bool_decide_eq_true_2 by done.
    rewrite decide_True by done. simpl. by rewrite IH.
  - rewrite bool_decide_eq_false_2 by done.
    rewrite decide_False by (intros H; by apply H). exact IH.
Qed.

Lemma Qc_ratio_bounds (a b : Qc) :
  (0 <= a)%Qc -> (a <= b)%Qc -> (0 < b)%Qc ->
  (0 <= a / b * qz 100)%Qc /\ (a / b * qz 100 <= qz 100)%Qc.
Proof.
  intros Ha Hab Hb.
  assert (Hne : b <> 0%Qc) by (intros ->; by apply (Qclt_not_le _ _ Hb)).
  assert (Hmul : (a / b * b = a)%Qc).
  { rewrite Qcmult_comm. by apply Qcmult_div_r. }
  assert (H0 : (0 <= a / b)%Qc).
  { apply (Qcmult_lt_0_le_reg_r _ _ b Hb). rewrite Hmul.
    by rewrite Qcmult_0_l. }
  assert (H1 : (a / b <= 1)%Qc).
  { apply (Qcmult_lt_0_le_reg_r _ _ b Hb). rewrite Hmul.
    by rewrite Qcmult_1_l. }
  assert (H100 : (0 <= qz 100)%Qc) by discriminate.
  split.
  - rewrite <- (Qcmult_0_l (qz 100)). by apply Qcmult_le_compat_r.
  - rewrite <- (Qcmult_1_l (qz 100)) at 2. by apply Qcmult_le_compat_r.
Qed.

(** X22: [validateDisparityMap] always returns and changes nothing.  On
    an empty disparity map it prints nothing.  On a non-empty one it
    prints as valid count the number of pixels whose disparity is
    positive; when the map has [rows * cols] pixels that count lies
    between 0 and [rows * cols], and the coverage it prints lies between
    0 and 100 percent. *)
Theorem validateDisparityMap_coverage (s : Processor) :
  let d := disparityMap s in
  let valid :=
    Z.of_nat (length (filter (fun px => (0 < channel 0 px)%Qc) (elems d))) in
  exists log,
    validateDisparityMap s = Some (tt, s, log) /\
    (Mat_empty d = true -> log = []) /\
    (Mat_empty d = false ->
     exists percent,
       log = [EvDisparityValidation valid (rows d * cols d) percent] /\
       (rows d * cols d = Z.of_nat (length (elems d)) ->
        0 <= valid <= rows d * cols d /\
        (0 <= percent)%Qc /\ (percent <= qz 100)%Qc)).
Proof.
  intros d valid. exists (validationLog d).
  split; [apply validateDisparityMap_run|].
  unfold validationLog. split; [by intros ->|]. intros Hne. rewrite Hne.
  rewrite countNonZero_compare_GT. fold valid. eexists. split; [reflexivity|].
  intros Hdim.
  assert (Hle : valid <= Z.of_nat (length (elems d))).
  { unfold valid. apply inj_le, length_filter. }
  assert (Hpos : 0 < Z.of_nat (length (elems d))).
  { unfold Mat_empty in Hne. destruct (elems d); [done|]. simpl. lia. }
  assert (H0 : 0 <= valid) by (unfold valid; lia).
  split; [lia|]. rewrite Hdim. apply Qc_ratio_bounds.
  - by apply (qz_le 0).
  - by apply qz_le.
  - by apply (qz_lt 0).
Qed.

(** *** When the stereo calibration is defined *)

(** X23: on a well-formed processor, [performStereoCalibration] is
    defined exactly when its first index is a configured camera and
    either that camera has no stored image points or the second index is
    a configured camera too.  When the first camera has no points the
    second index is never used: the call reports the missing points and
    returns [false] without touching the processor, whatever the second
    index is. *)
Theorem performStereoCalibration_defined_iff (s : Processor) (c1 c2 : Z) :
  wf s ->
  (is_Some (performStereoCalibration c1 c2 s) <->
   0 <= c1 < cameraCount s /\
   (pointsOf s c1 = [] \/ 0 <= c2 < cameraCount s)) /\
  (0 <= c1 < cameraCount s -> pointsOf s c1 = [] ->
   performStereoCalibration c1 c2 s =
     Some (false, s, [EvStereoStart c1 c2; EvStereoMissingPoints])).
Proof.
  intros Hwf. assert (Hip := wf_imagePoints s Hwf).
  assert (Hn := wf_count s Hwf).
  assert (Hmiss : 0 <= c1 < cameraCount s -> pointsOf s c1 = [] ->
            performStereoCalibration c1 c2 s =
              Some (false, s, [EvStereoStart c1 c2; EvStereoMissingPoints])).
  { intros H1 Hempty. unfold performStereoCalibration. mrun.
    rewrite (bind_vec_get []) by lia. fold (pointsOf s c1). rewrite Hempty.
    rewrite (bool_decide_eq_true_2 (@nil Point2f = [])) by done. mrun.
    reflexivity. }
  split; [split|exact Hmiss].
  - intros H.
    destruct (decide (0 <= c1 < cameraCount s)) as [H1|H1].
    + split; [done|].
      destruct (decide (pointsOf s c1 = [])) as [|Hpts]; [by left|]. right.
      destruct (decide (0 <= c2 < cameraCount s)) as [|H2]; [done|].
      exfalso. revert H. unfold performStereoCalibration. mrun.
      rewrite (bind_vec_get []) by lia. fold (pointsOf s c1).
      rewrite (bool_decide_eq_false_2 (pointsOf s c1 = [])) by done.
      cbv iota. rewrite bind_assoc.
      rewrite bind_None by (apply vec_get_None; lia). by intros [? ?].
    + exfalso. revert H. unfold performStereoCalibration. mrun.
      rewrite bind_None by (apply vec_get_None; lia). by intros [? ?].
  - intros [H1 [Hempty|H2]]; [rewrite Hmiss by done; eauto|].
    rewrite performStereoCalibration_run by done. eauto.
Qed.

(** *** Calibration on the processors that can exist *)





(** *** A pass on the processors that can exist *)














(** X9: with at least two cameras configured and at least two frames
    stored, [generateStereoDepthMap] prints its start line and then,
    with no test on the maps, calls [remap] on the stored frame with the
    lowest camera id, whatever that id is, with the rectification maps
    of camera 0; the frame it takes second is the one with the next
    camera id, and when the maps of cameras 0 and 1 are not empty it is
    remapped with the maps of camera 1.  The frames it works on are the
    frames as decoded, not the copies [rectifyFrames] made, and it
    changes neither the frames nor the calibration. *)
Theorem stereo_pair_is_two_lowest_ids (s : Processor) :
  wf s -> 2 <= cameraCount s -> (2 <= size (currentFrames s))%nat ->
  exists c1 f1 c2 f2 s' after,
    generateStereoDepthMap s =
      Some (tt, s',
            EvDisparityStart ::
            EvCallRemap f1 (matOf (rectifyMaps1 s) 0) (matOf (rectifyMaps2 s) 0) ::
            after) /\
    currentFrames s !! c1 = Some f1 /\ currentFrames s !! c2 = Some f2 /\
    c1 < c2 /\
    (forall c, is_Some (currentFrames s !! c) -> c = c1 \/ c = c2 \/ c2 < c) /\
    (Mat_empty (matOf (rectifyMaps1 s) 0) = false ->
     Mat_empty (matOf (rectifyMaps1 s) 1) = false ->
     EvCallRemap f2 (matOf (rectifyMaps1 s) 1) (matOf (rectifyMaps2 s) 1) ∈ after) /\
    currentFrames s' = currentFrames s /\
    processedFrames s' = processedFrames s /\
    same_calibration s s'.
Proof.
  intros Hwf Hn Hsz.
  pose proof (frames_in_order_sorted (currentFrames s)) as Hsorted.
  pose proof (elem_of_frame_keys (currentFrames s)) as Hkeys.
  pose proof (elem_of_frames_in_order (currentFrames s)) as Helem.
  pose proof (generateStereoDepthMap_run s Hwf Hn Hsz) as Hrun.
  rewrite <- length_frames_in_order in Hsz.
  unfold remapCalls in Hrun.
  destruct (frames_in_order (currentFrames s)) as [|[c1 f1] [|[c2 f2] rest]];
    [simpl in Hsz; lia..|].
  simpl in Hsorted.
  apply StronglySorted_inv in Hsorted as [Hsorted H1].
  apply StronglySorted_inv in Hsorted as [_ H2].
  apply Forall_cons in H1 as [H12 _].
  exists c1, f1, c2, f2. do 2 eexists. split; [exact Hrun|].
  split; [apply Helem; left|]. split; [apply Helem; right; left|].
  split; [done|]. split; [|split; [intros _ _; by left|by repeat split]].
  intros c Hc. apply Hkeys in Hc. simpl in Hc.
  apply elem_of_cons in Hc as [->|Hc]; [by left|].
  apply elem_of_cons in Hc as [->|Hc]; [right; by left|].
  right. right. rewrite Forall_forall in H2. by apply H2.
Qed.

End MoreProperties.

(** ** [initialize] establishes well-formedness *)

Lemma initialize_wf (w h numCameras : Z) (s : Processor) :
  0 <= numCameras < 2 ^ 31 ->
  exists s', initialize w h numCameras s =
               Some (true, s', [EvInitialized numCameras w h]) /\
             wf s' /\ cameraCount s' = numCameras /\
             imageSize s' = mkSize w h.
Proof.
  intros Hn. unfold initialize. rewrite bool_decide_eq_false_2 by lia.
  eexists. split; [reflexivity|].
  split; [|done]. constructor; simpl; rewrite ?length_resize; done.
Qed.

Lemma initialize_fresh :
  outcome_state (initialize 640 480 2 fresh) = Some rig_empty.
Proof. reflexivity. Qed.

(** ** The concrete rigs are well formed *)

Lemma rig_wf (points : list (list Point2f)) :
  Z.of_nat (length points) < 2 ^ 31 -> wf (rig points).
Proof.
  intros Hn. constructor; simpl; rewrite ?length_replicate, ?Nat2Z.id; (done || lia).
Qed.


(** ** More concrete inputs *)

Lemma rig_empty_reachable : @reachable cv_stub rig_empty.
Proof.
  apply (reachable_call fresh (CallInitialize 640 480 2) rig_empty
           [EvInitialized 2 640 480] reachable_fresh); [|reflexivity].
  unfold int_args, is_int. lia.
Qed.






(** ** Counterexamples *)



(** ** The theorems at concrete inputs *)

Lemma performAutomaticCalibration_result_witness :
  wf rig_empty /\
  exists s' log,
    @performAutomaticCalibration cv_stub rig_empty = Some (true, s', log) /\
    EvStereoMissingPoints ∈ log.
Proof.
  assert (Hwf : wf rig_empty) by (apply rig_wf; reflexivity).
  split; [exact Hwf|].
  destruct (performAutomaticCalibration_result (cv:=cv_stub) rig_empty Hwf)
    as (b & s' & log & Hrun & _ & _ & Hall).
  destruct Hall as (-> & _ & _ & Hstereo & _).
  - discriminate.
  - intros c Hc. assert (c = 0 \/ c = 1) as [-> | ->]
      by (change (cameraCount rig_empty) with 2 in Hc; lia);
      vm_compute; lia.
  - reflexivity.
  - exists s', log. split; [exact Hrun|exact Hstereo].
Defined.

(** ** More concrete inputs *)

Lemma rig_two_frames_wf : wf rig_two_frames.
Proof. constructor; (reflexivity || (split; [discriminate|reflexivity])). Qed.

Lemma rig_two_frames_keys (c : Z) (f : Mat) :
  currentFrames rig_two_frames !! c = Some f -> 0 <= c < cameraCount rig_two_frames.
Proof.
  intros Hl. change (cameraCount rig_two_frames) with 2.
  change (currentFrames rig_two_frames)
    with (<[0 := stub_pixel 1]> (<[1 := stub_pixel 2]> (∅ : gmap Z Mat))) in Hl.
  apply lookup_insert_Some in Hl as [[<- _]|[_ Hl]]; [lia|].
  apply lookup_insert_Some in Hl as [[<- _]|[_ Hl]]; [lia|].
  by rewrite lookup_empty in Hl.
Qed.

Lemma rig_two_frames_size : (2 <= size (currentFrames rig_two_frames))%nat.
Proof. vm_compute. lia. Qed.

Lemma bridge_rig_empty_reachable : @bridge_reachable cv_stub (Some rig_empty).
Proof.
  apply (bridge_step None (NativeInitializeProcessor 640 480 2) (Some rig_empty)
           [EvInitialized 2 640 480] bridge_start); [|reflexivity].
  unfold jint_args, is_int. lia.
Qed.

(** ** The further theorems at concrete inputs *)

Lemma initialize_sizes_every_vector_witness :
  0 <= 2 < 2 ^ 31 /\
  exists s',
    initialize 640 480 2 fresh = Some (true, s', [EvInitialized 2 640 480]) /\
    wf s'.
Proof.
  assert (Hn : 0 <= 2 < 2 ^ 31) by (split; [discriminate|reflexivity]).
  split; [exact Hn|].
  destruct (initialize_sizes_every_vector 640 480 2 fresh Hn)
    as (s' & Hrun & Hwf & _).
  exists s'. split; [exact Hrun|exact Hwf].
Defined.

Lemma initialize_keeps_previous_data_witness :
  0 <= 2 < 2 ^ 31 /\
  exists s',
    initialize 640 480 2 rig_depth = Some (true, s', [EvInitialized 2 640 480]) /\
    depthMap s' = depthMap rig_depth.
Proof.
  assert (Hn : 0 <= 2 < 2 ^ 31) by (split; [discriminate|reflexivity]).
  split; [exact Hn|].
  destruct (initialize_keeps_previous_data 640 480 2 rig_depth Hn)
    as (s' & Hrun & _ & _ & _ & _ & Hdepth & _).
  exists s'. split; [exact Hrun|exact Hdepth].
Defined.

Lemma calibrateCamera_view_counts_witness :
  wf rig_10_3 /\
  exists b s' log,
    @performAutomaticCalibration cv_stub rig_10_3 = Some (b, s', log) /\
    forall c n m flags, EvCallCalibrateCamera c n m flags ∈ log -> n <> m.
Proof.
  assert (Hwf : wf rig_10_3) by (apply rig_wf; reflexivity).
  split; [exact Hwf|].
  destruct (calibrateCamera_view_counts (cv:=cv_stub) rig_10_3 Hwf)
    as (b & s' & log & Hrun & Hcalls).
  exists b, s', log. split; [exact Hrun|].
  intros c n m flags Hin. exact (proj2 (proj2 (proj2 (proj2 (Hcalls c n m flags Hin))))).
Defined.

Lemma stereo_calibration_frame_witness :
  wf rig_degenerate /\ 0 <= 0 < cameraCount rig_degenerate /\
  0 <= 1 < cameraCount rig_degenerate /\
  exists b s' log,
    @performStereoCalibration cv_stub 0 1 rig_degenerate = Some (b, s', log) /\
    wf s' /\ cameraMatrices s' = cameraMatrices rig_degenerate.
Proof.
  assert (Hwf : wf rig_degenerate) by (apply rig_wf; reflexivity).
  assert (H0 : 0 <= 0 < cameraCount rig_degenerate)
    by (split; [discriminate|reflexivity]).
  assert (H1 : 0 <= 1 < cameraCount rig_degenerate)
    by (split; [discriminate|reflexivity]).
  split; [exact Hwf|]. split; [exact H0|]. split; [exact H1|].
  destruct (stereo_calibration_frame (cv:=cv_stub) rig_degenerate 0 1 Hwf H0 H1)
    as (b & s' & log & Hrun & Hwf' & _ & Hcm & _).
  exists b, s', log. split; [exact Hrun|]. split; [exact Hwf'|exact Hcm].
Defined.


Lemma rectifyFrames_fills_slots_witness :
  wf rig_two_frames /\
  (forall c f, currentFrames rig_two_frames !! c = Some f ->
     0 <= c < cameraCount rig_two_frames) /\
  exists s',
    @rectifyFrames cv_stub rig_two_frames = Some (tt, s', []) /\
    currentFrames s' = currentFrames rig_two_frames.
Proof.
  split; [exact rig_two_frames_wf|]. split; [exact rig_two_frames_keys|].
  destruct (rectifyFrames_fills_slots (cv:=cv_stub) rig_two_frames
              rig_two_frames_wf rig_two_frames_keys)
    as (s' & Hrun & _ & _ & Hf & _).
  exists s'. split; [exact Hrun|exact Hf].
Defined.


Lemma rectifyFrames_defined_iff_witness :
  wf rig_two_frames /\ is_Some (@rectifyFrames cv_stub rig_two_frames).
Proof.
  split; [exact rig_two_frames_wf|].
  exact (proj2 (rectifyFrames_defined_iff (cv:=cv_stub) rig_two_frames
                  rig_two_frames_wf) rig_two_frames_keys).
Defined.


Lemma public_calls_never_calibrate_witness :
  @reachable cv_stub rig_empty /\ wf rig_empty /\ Q rig_empty = Mat_new.
Proof.
  split; [exact rig_empty_reachable|].
  destruct (public_calls_never_calibrate (cv:=cv_stub) rig_empty
              rig_empty_reachable) as (Hwf & HQ & _).
  split; [exact Hwf|exact HQ].
Defined.

Lemma automatic_calibration_finds_no_points_witness :
  @reachable cv_stub rig_empty /\
  exists log,
    @performAutomaticCalibration cv_stub rig_empty =
      Some (bool_decide (2 <= cameraCount rig_empty), rig_empty, log).
Proof.
  split; [exact rig_empty_reachable|].
  destruct (automatic_calibration_finds_no_points (cv:=cv_stub) rig_empty
              rig_empty_reachable) as (log & Hrun & _).
  exists log. exact Hrun.
Defined.


Lemma bridge_processor_is_uncalibrated_witness :
  @bridge_reachable cv_stub (Some rig_empty) /\ Some rig_empty = Some rig_empty /\
  @reachable cv_stub rig_empty /\ wf rig_empty.
Proof.
  split; [exact bridge_rig_empty_reachable|]. split; [reflexivity|].
  destruct (bridge_processor_is_uncalibrated (cv:=cv_stub) (Some rig_empty)
              rig_empty bridge_rig_empty_reachable eq_refl) as (Hr & Hwf & _).
  split; [exact Hr|exact Hwf].
Defined.

Lemma residualFunction_defined_iff_witness :
  wf rig_10_3 /\ is_Some (residualFunction (replicate 30 0%Qc) [] rig_10_3).
Proof.
  assert (Hwf : wf rig_10_3) by (apply rig_wf; reflexivity).
  split; [exact Hwf|].
  apply (proj2 (proj1 (residualFunction_defined_iff rig_10_3
                         (replicate 30 0%Qc) [] Hwf))).
  vm_compute. lia.
Defined.

Lemma validateTriangulation_defined_iff_witness :
  wf rig_empty /\
  @validateTriangulation cv_stub [] [] [] rig_empty =
    Some (tt, rig_empty,
          [EvValidatingTriangulation; EvMeanReprojectionError None;
           EvTriangulationQuality LowQuality]).
Proof.
  assert (Hwf : wf rig_empty) by (apply rig_wf; reflexivity).
  split; [exact Hwf|].
  apply (proj2 (validateTriangulation_defined_iff (cv:=cv_stub) rig_empty
                  [] [] [] Hwf)).
  discriminate.
Defined.

Lemma performStereoCalibration_defined_iff_witness :
  wf rig_10_3 /\ is_Some (@performStereoCalibration cv_stub 0 1 rig_10_3).
Proof.
  assert (Hwf : wf rig_10_3) by (apply rig_wf; reflexivity).
  split; [exact Hwf|].
  apply (proj2 (proj1 (performStereoCalibration_defined_iff (cv:=cv_stub)
                         rig_10_3 0 1 Hwf))).
  split; [split; [discriminate|reflexivity]|].
  right. split; [discriminate|reflexivity].
Defined.






Lemma stereo_pair_is_two_lowest_ids_witness :
  wf rig_two_frames /\ 2 <= cameraCount rig_two_frames /\
  (2 <= size (currentFrames rig_two_frames))%nat /\
  exists f1 s' after,
    @generateStereoDepthMap cv_stub rig_two_frames =
      Some (tt, s', EvDisparityStart :: EvCallRemap f1 Mat_new Mat_new :: after).
Proof.
  assert (Hn : 2 <= cameraCount rig_two_frames) by discriminate.
  split; [exact rig_two_frames_wf|]. split; [exact Hn|].
  split; [exact rig_two_frames_size|].
  destruct (stereo_pair_is_two_lowest_ids (cv:=cv_stub) rig_two_frames
              rig_two_frames_wf Hn rig_two_frames_size)
    as (c1 & f1 & c2 & f2 & s' & after & Hrun & _).
  exists f1, s', after. exact Hrun.
Defined.

